(** * instasave_bobur: the download-size-adaptive delivery pipeline of [main.py]

    A shallow embedding of the bot's helpers ([is_supported_url],
    [platform_name], [human_mb], [build_ydl_opts]), of its pipeline
    ([ffmpeg_compress], [shrink_until_ok], [send_file], [handle_url]) and of
    the permit pool [CONCURRENCY], followed by the properties of the
    specification that concern them.

    Conventions of the embedding.
    - Text is a [string] whose characters are read as the code points
      U+0000..U+00FF.
    - The chat transport, the extraction engine, the transcoding engine and the
      temporary-directory allocator are collaborators: they are fields of an
      environment [Env], each a function of the world it is called in, so a
      statement quantified over [Env] holds for every behaviour they can show.
    - Coroutines are functions [World -> Res A * World]; an exception is the
      result [Raise e].  Every call to the transport, to the extraction engine
      and to the transcoder appends an [event] to the world's [trace], whether
      or not the call raises; a scratch directory is recorded once it exists.
    - [logging] calls have no effect on the pipeline and are left out. *)

From Stdlib Require Import ZArith QArith Ascii String List Lia.
From stdpp Require Import base strings pretty gmap list.

Local Open Scope string_scope.
Local Open Scope list_scope.
Local Open Scope Z_scope.

(** ** Text: [str.strip] and case folding *)

Module Str.

(** [str.isspace] on one character of U+0000..U+00FF. *)
Definition isspace (c : ascii) : bool :=
  let n := Z.of_N (N_of_ascii c) in
  ((9 <=? n) && (n <=? 13)) || ((28 <=? n) && (n <=? 32))
  || (n =? 133) || (n =? 160).

Fixpoint lstrip (s : string) : string :=
  match s with
  | String c s' => if isspace c then lstrip s' else s
  | EmptyString => EmptyString
  end.

Fixpoint rstrip (s : string) : string :=
  match s with
  | String c s' =>
      match rstrip s' with
      | EmptyString => if isspace c then EmptyString else String c EmptyString
      | t => String c t
      end
  | EmptyString => EmptyString
  end.

(** [s.strip()] *)
Definition strip (s : string) : string := rstrip (lstrip s).

(** The simple lower-case mapping the [re] module applies under [re.I],
    on U+0000..U+00FF. *)
Definition lower (c : ascii) : ascii :=
  let n := Z.of_N (N_of_ascii c) in
  if ((65 <=? n) && (n <=? 90))
     || ((192 <=? n) && (n <=? 222) && negb (n =? 215))
  then ascii_of_N (Z.to_N (n + 32)) else c.

(** Python truthiness of a [str]. *)
Definition truthy (s : string) : bool :=
  match s with EmptyString => false | _ => true end.

(** [x or d] for an optional string [x]. *)
Definition or_else (x : option string) (d : string) : string :=
  match x with
  | Some s => if truthy s then s else d
  | None => d
  end.

End Str.

(** ** The fragment of [re] used by the two URL patterns *)

Module Re.

Inductive regex : Type :=
| Lit (c : ascii)            (* a literal or escaped character *)
| Cat (r1 r2 : regex)        (* r1 r2 *)
| Alt (r1 r2 : regex)        (* r1 | r2 *)
| Opt (r : regex)            (* ( r )? *)
| Empty.

Fixpoint lits (s : string) : regex :=
  match s with
  | String c s' => Cat (Lit c) (lits s')
  | EmptyString => Empty
  end.

(** A compiled pattern: [re.compile(pattern, flags)]. *)
Record compiled := Compile { pattern : regex; ignorecase : bool }.

Definition same_char (ic : bool) (c d : ascii) : bool :=
  if ic then bool_decide (Str.lower c = Str.lower d) else bool_decide (c = d).

(** Every way [r] can match a prefix of [s]: the unread remainders. *)
Fixpoint ends (ic : bool) (r : regex) (s : string) : list string :=
  match r with
  | Lit c =>
      match s with
      | String d s' => if same_char ic c d then [s'] else []
      | EmptyString => []
      end
  | Cat r1 r2 => flat_map (ends ic r2) (ends ic r1 s)
  | Alt r1 r2 => ends ic r1 s ++ ends ic r2 s
  | Opt r1 => ends ic r1 s ++ [s]
  | Empty => [s]
  end.

(** [p.match(s) is not None]: a match starting at the first character. *)
Definition matches_at (p : compiled) (s : string) : bool :=
  match ends (ignorecase p) (pattern p) s with
  | [] => false
  | _ :: _ => true
  end.

(** [bool(p.search(s))]: a match starting at some position. *)
Fixpoint search (p : compiled) (s : string) : bool :=
  matches_at p s
  || match s with
     | String _ s' => search p s'
     | EmptyString => false
     end.

End Re.

(** ** Config & constants *)

Definition MAX_HEIGHT_TARGET : Z := 480.
Definition TELEGRAM_LIMIT_MB : Z := 2000.
Definition SAFE_LIMIT_MB : Z := 1900.
Definition SEND_AS_VIDEO_THRESHOLD_MB : Z := 50.

(** [os.getenv("IG_COOKIES_PATH", "").strip()], from the optional value of
    the environment variable. *)
Definition IG_COOKIES_PATH (getenv : option string) : string :=
  Str.strip (default "" getenv).

(** [(https?://)?(www\.)?(youtube\.com/(watch\?v=|shorts/)|youtu\.be/)], [re.I] *)
Definition YOUTUBE_RE : Re.compiled :=
  Re.Compile
    (Re.Cat (Re.Opt (Re.Cat (Re.lits "http")
                       (Re.Cat (Re.Opt (Re.Lit "s")) (Re.lits "://"))))
       (Re.Cat (Re.Opt (Re.lits "www."))
          (Re.Alt (Re.Cat (Re.lits "youtube.com/")
                     (Re.Alt (Re.lits "watch?v=") (Re.lits "shorts/")))
                  (Re.lits "youtu.be/"))))
    true.

(** [(https?://)?(www\.)?instagram\.com/(reel|p|tv)/], [re.I] *)
Definition INSTAGRAM_RE : Re.compiled :=
  Re.Compile
    (Re.Cat (Re.Opt (Re.Cat (Re.lits "http")
                       (Re.Cat (Re.Opt (Re.Lit "s")) (Re.lits "://"))))
       (Re.Cat (Re.Opt (Re.lits "www."))
          (Re.Cat (Re.lits "instagram.com/")
             (Re.Cat (Re.Alt (Re.lits "reel") (Re.Alt (Re.lits "p") (Re.lits "tv")))
                     (Re.Lit "/")))))
    true.

(** ** Helpers *)

Definition is_supported_url (url : string) : bool :=
  Re.search YOUTUBE_RE url || Re.search INSTAGRAM_RE url.

Definition platform_name (url : string) : string :=
  if Re.search YOUTUBE_RE url then "YouTube"
  else if Re.search INSTAGRAM_RE url then "Instagram"
  else "Unknown".

(** [round(x, ndigits)] of a float, on the exact value [x] of its argument:
    CPython rounds the exact binary value correctly, ties to even, so the
    result is the double nearest to the decimal computed here.  In [human_mb]
    the argument is a quotient by a power of two, which the division yields
    exactly for every size below 2^53; and the constants the result is compared
    with are integers, so each comparison in the code has the truth value of the
    comparison on these exact decimals. *)
Definition round_half_even (x : Q) : Z :=
  let n := Qnum x in
  let d := Z.pos (Qden x) in
  let q := n / d in
  let r := n mod d in
  if 2 * r <? d then q
  else if d <? 2 * r then q + 1
  else if Z.even q then q else q + 1.

Definition py_round (x : Q) (ndigits : nat) : Q :=
  let scale := Z.to_pos (10 ^ Z.of_nat ndigits) in
  Qmake (round_half_even (x * inject_Z (Z.pos scale))) scale.

(** [human_mb]: for a size below 2^53 bytes the value is the decimal that the
    float of the code is nearest to; for every size, the comparisons with the
    limits 50, 1900 and 2000 are those of the code. *)
Definition human_mb (bytes_ : Z) : Q :=
  py_round (inject_Z bytes_ / inject_Z (1024 * 1024)) 2.

(** [x <= n] and [x > n] between a float and an integer constant. *)
Definition le_int (x : Q) (n : Z) : bool := Qle_bool x (inject_Z n).
Definition gt_int (x : Q) (n : Z) : bool := negb (Qle_bool x (inject_Z n)).

(** ** [pathlib]: the operations of [Path] the bot uses

    A path is its string form, already normalised as [Path(...)] leaves it. *)

Module Pathlib.

Definition sep : ascii := "/"%char.
Definition dot : ascii := "."%char.

(** [d / name], for a relative [name] and a directory [d] that takes a
    separator: every path but "." and the roots "/" and "//". *)
Definition joinpath (d name : string) : string := d +:+ "/" +:+ name.

(** The path cut after its last separator: what precedes the final
    component (with the separator), and the final component. *)
Fixpoint split_name (p : string) : string * string :=
  match p with
  | String c p' =>
      let '(d, n) := split_name p' in
      match d with
      | EmptyString =>
          if bool_decide (c = sep) then (String c EmptyString, n)
          else (EmptyString, String c n)
      | _ => (String c d, n)
      end
  | EmptyString => (EmptyString, EmptyString)
  end.

(** [p.name]: the path "." has no component, so its name is empty. *)
Definition name (p : string) : string :=
  if bool_decide (p = ".") then EmptyString else snd (split_name p).

(** [n.rfind('.')] as a cut: the text before the last dot and the text from
    that dot on, when [n] holds a dot. *)
Fixpoint rsplit_dot (n : string) : option (string * string) :=
  match n with
  | String c n' =>
      match rsplit_dot n' with
      | Some (a, b) => Some (String c a, b)
      | None => if bool_decide (c = dot) then Some (EmptyString, n) else None
      end
  | EmptyString => None
  end.

(** [(stem, suffix)] of a final component: the suffix starts at the last
    dot, unless that dot is the first or the last character. *)
Definition split_suffix (n : string) : string * string :=
  match rsplit_dot n with
  | Some (String c a, String d (String e b)) =>
      (String c a, String d (String e b))
  | _ => (n, EmptyString)
  end.

Definition suffix (p : string) : string := snd (split_suffix (name p)).

Fixpoint contains (c : ascii) (s : string) : bool :=
  match s with
  | String d s' => bool_decide (c = d) || contains c s'
  | EmptyString => false
  end.

(** [s.count(c)] for a character [c]. *)
Fixpoint count (c : ascii) (s : string) : nat :=
  match s with
  | String d s' => (if bool_decide (c = d) then 1 else 0)%nat + count c s'
  | EmptyString => 0%nat
  end.

(** The suffixes [with_suffix] accepts: no separator, and either empty or
    a dot followed by something. *)
Definition valid_suffix (sfx : string) : bool :=
  negb (contains sep sfx)
  && match sfx with
     | EmptyString => true
     | String c EmptyString => false
     | String c _ => bool_decide (c = dot)
     end.

(** [p.with_suffix(sfx)]; [None] stands for the [ValueError] of an invalid
    suffix or of a path with an empty name. *)
Definition with_suffix (p sfx : string) : option string :=
  if valid_suffix sfx then
    match name p with
    | EmptyString => None
    | n => Some (fst (split_name p) +:+ fst (split_suffix n) +:+ sfx)
    end
  else None.

End Pathlib.

(** ** Extraction options *)

(** The values stored in the options dictionary. *)
Inductive pyval : Type :=
| PStr (s : string)
| PBool (b : bool)
| PInt (n : Z).

(** [str(n)] for an [int]. *)
Definition str_int (n : Z) : string := pretty n.

(** [build_ydl_opts(tmp_dir, from_instagram, max_h)]; the module-level
    [IG_COOKIES_PATH] it reads is the first argument. *)
Definition build_ydl_opts (cookies_path : string)
    (tmp_dir : string) (from_instagram : bool) (max_h : Z) : gmap string pyval :=
  let fmt_chain :=
    "bv*[height<=" +:+ str_int max_h +:+ "][ext=mp4]+ba[ext=m4a]"
    +:+ "/b[height<=" +:+ str_int max_h +:+ "][ext=mp4]"
    +:+ "/best[ext=mp4]"
    +:+ "/best" in
  let opts : gmap string pyval :=
    <["outtmpl" := PStr (Pathlib.joinpath tmp_dir "%(title).200B.%(ext)s")]>
    (<["format" := PStr fmt_chain]>
    (<["merge_output_format" := PStr "mp4"]>
    (<["noplaylist" := PBool true]>
    (<["quiet" := PBool true]>
    (<["no_warnings" := PBool true]>
    (<["prefer_ffmpeg" := PBool true]>
    (<["retries" := PInt 3]> ∅))))))) in
  if from_instagram && Str.truthy cookies_path
  then <["cookies" := PStr cookies_path]> opts
  else opts.

(** ** The world the pipeline runs in *)

Inductive exn : Type :=
| RuntimeError (msg : string)
| FileNotFoundError (msg : string)
| ValueError (msg : string)
| Foreign (is_exception : bool) (descr : string).
    (* raised by a collaborator; [is_exception] tells whether its class
       derives from [Exception] or from [BaseException] only *)

(** [isinstance(e, Exception)]: what [except Exception] catches. *)
Definition is_Exception (e : exn) : bool :=
  match e with
  | Foreign b _ => b
  | _ => true
  end.

(** The texts the bot sends, by the place of the source that builds them. *)
Inductive reply : Type :=
| RejectLink                       (* "Send a valid YouTube/Instagram link. ..." *)
| Downloading (plat : string)      (* "Downloading from {plat} ..." *)
| Compressing (max_h crf : Z)      (* "Large video. Compressing ({max_h}p, CRF {crf}) ..." *)
| Uploading                        (* "Downloaded. Uploading to Telegram ..." *)
| TooLarge                         (* "File exceeds Telegram limit (>2GB)." *)
| SendingFailed (e : exn)          (* "Sending failed: {e!s}" *)
| DownloadFailed (e : exn).        (* "Download/convert failed. ... Error: {e!s} ..." *)

Inductive chat_action : Type := TYPING | UPLOAD_VIDEO | RECORD_VIDEO.

(** One run of [ffmpeg_compress]: its arguments, the exit status of the engine
    and the size of [dst] once the engine is done, if [dst] exists then. *)
Record invocation := mkInvocation {
  src : string;
  dst : string;
  max_h : Z;
  crf : Z;
  returncode : Z;
  produced : option Z
}.

Inductive event : Type :=
| Answer (t : reply)                        (* message.answer(t) *)
| EditText (t : reply)                      (* status_msg.edit_text(t) *)
| ChatAction (a : chat_action)              (* bot.send_chat_action(chat, a) *)
| AnswerVideo (file caption : string)       (* message.answer_video *)
| AnswerDocument (file caption : string)    (* message.answer_document *)
| Acquire                                   (* CONCURRENCY.__aenter__ returned *)
| Release                                   (* CONCURRENCY.__aexit__ *)
| MkDtemp (td : string)                     (* TemporaryDirectory() created td *)
| Cleanup (td : string)                     (* TemporaryDirectory.__exit__ *)
| ExtractInfo (url : string) (opts : gmap string pyval)
                                            (* YoutubeDL(opts).extract_info(url) *)
| Transcode (i : invocation).               (* ffmpeg_compress ran the engine *)

(** [disk] gives the [st_size] of every existing path. *)
Record World := mkWorld { disk : gmap string Z; trace : list event }.

(** What yt-dlp hands back. *)
Record info_dict := mkInfo {
  requested_downloads : list (option string);
    (* the "filepath" entry of each requested download, when it has one *)
  prepared_filename : string;       (* ydl.prepare_filename(info) *)
  info_title : option string        (* info.get("title") *)
}.

Inductive ytdl_info : Type :=
| InfoDict (d : info_dict)
| InfoOther.                        (* anything that is not a dict *)

(** The collaborators.  A transport call returns [None] when it returns
    normally and [Some e] when it raises [e]. *)
Record Env := mkEnv {
  environ_IG_COOKIES_PATH : option string;
  answer : World -> reply -> option exn;
  edit_text : World -> reply -> option exn;
  send_chat_action : World -> chat_action -> option exn;
  answer_video : World -> string -> string -> option exn;
  answer_document : World -> string -> string -> option exn;
  extract_info :
    World -> string -> gmap string pyval -> (exn + ytdl_info) * gmap string Z;
    (* what extract_info raises or returns, and the disk it leaves *)
  run_ffmpeg : World -> list string -> Z * gmap string Z;
    (* create_subprocess_exec on cmd, then wait(): the exit status and the disk *)
  mkdtemp : World -> exn + (string * gmap string Z)
    (* the path of the new directory and the disk that holds it *)
}.

(** *** Coroutines as world-passing functions *)

Inductive Res (A : Type) : Type :=
| Ok (a : A)
| Raise (e : exn).
Arguments Ok {A} a.
Arguments Raise {A} e.

Definition M (A : Type) : Type := World -> Res A * World.

Definition ret {A} (a : A) : M A := fun w => (Ok a, w).
Definition raise {A} (e : exn) : M A := fun w => (Raise e, w).
Definition bind {A B} (m : M A) (k : A -> M B) : M B :=
  fun w =>
    match m w with
    | (Ok a, w') => k a w'
    | (Raise e, w') => (Raise e, w')
    end.

Notation "'do' x <- m ; k" := (bind m (fun x => k))
  (at level 10, x pattern, m at level 100, k at level 200).

Definition log_event (e : event) (w : World) : World :=
  mkWorld (disk w) (trace w ++ [e]).

(** A transport call: the event, then the collaborator's verdict. *)
Definition call (e : event) (verdict : World -> option exn) : M unit :=
  fun w =>
    match verdict w with
    | None => (Ok tt, log_event e w)
    | Some x => (Raise x, log_event e w)
    end.

(** [try: body  except Exception as e: handler(e)] *)
Definition try_except {A} (body : M A) (handler : exn -> M A) : M A :=
  fun w =>
    match body w with
    | (Ok a, w') => (Ok a, w')
    | (Raise e, w') => if is_Exception e then handler e w' else (Raise e, w')
    end.

(** [try: body  finally: final], for a [final] that does not raise. *)
Definition finally {A} (body : M A) (final : World -> World) : M A :=
  fun w => let '(r, w') := body w in (r, final w').

(** [p.stat().st_size] and [p.exists()] *)
Definition stat_size (p : string) : M Z :=
  fun w =>
    match disk w !! p with
    | Some n => (Ok n, w)
    | None => (Raise (FileNotFoundError p), w)
    end.

Definition exists_on (d : gmap string Z) (p : string) : bool :=
  match d !! p with Some _ => true | None => false end.

Definition path_exists (p : string) : M bool :=
  fun w => (Ok (exists_on (disk w) p), w).

(** [p.with_suffix(sfx)] *)
Definition with_suffix (p sfx : string) : M string :=
  match Pathlib.with_suffix p sfx with
  | Some q => ret q
  | None => raise (ValueError "invalid suffix or empty name")
  end.

(** [p] is the directory [td] or lies below it. *)
Definition inside (td p : string) : bool :=
  bool_decide (p = td) || String.prefix (td +:+ "/") p.

(** What [TemporaryDirectory.__exit__] leaves of the disk. *)
Definition rmtree (td : string) (d : gmap string Z) : gmap string Z :=
  filter (fun kv => inside td kv.1 = false) d.

(** ** The pipeline *)

Section Pipeline.

Variable E : Env.

(** [with tempfile.TemporaryDirectory() as td: body(td)]: the directory is
    removed when the block is left, however it is left. *)
Definition with_tempdir {A} (body : string -> M A) : M A :=
  fun w =>
    match mkdtemp E w with
    | inl e => (Raise e, w)
    | inr (td, d) =>
        finally (body td)
          (fun w' => log_event (Cleanup td) (mkWorld (rmtree td (disk w')) (trace w')))
          (log_event (MkDtemp td) (mkWorld d (trace w)))
    end.

(** [async with CONCURRENCY: body] *)
Definition with_permit {A} (body : M A) : M A :=
  fun w => finally body (log_event Release) (log_event Acquire w).

Definition ffmpeg_cmd (src dst : string) (max_h crf : Z) : list string :=
  [ "ffmpeg"; "-y";
    "-i"; src;
    "-vf"; "scale=-2:" +:+ str_int max_h;
    "-c:v"; "libx264"; "-preset"; "veryfast"; "-crf"; str_int crf;
    "-c:a"; "aac"; "-b:a"; "128k";
    dst ].

Definition ffmpeg_compress (src dst : string) (max_h crf : Z) : M unit :=
  fun w =>
    let '(rc, d) := run_ffmpeg E w (ffmpeg_cmd src dst max_h crf) in
    let w' :=
      log_event (Transcode (mkInvocation src dst max_h crf rc (d !! dst)))
        (mkWorld d (trace w)) in
    if negb (rc =? 0) || negb (exists_on d dst)
    then (Raise (RuntimeError "ffmpeg compress failed"), w')
    else (Ok tt, w').

Definition attempts : list (Z * Z) :=
  [ (MAX_HEIGHT_TARGET, 28);
    (MAX_HEIGHT_TARGET, 30);
    (360, 28);
    (360, 30) ].

(** The suffix of a candidate, [f".{max_h}p.crf{crf}.mp4"]. *)
Definition candidate_suffix (max_h crf : Z) : string :=
  "." +:+ str_int max_h +:+ "p.crf" +:+ str_int crf +:+ ".mp4".

(** The [for max_h, crf in attempts] loop of [shrink_until_ok], from the
    entries still to try and the current path; [break] is the return. *)
Fixpoint shrink_loop (todo : list (Z * Z)) (current : string) : M string :=
  match todo with
  | [] => ret current
  | (max_h, crf) :: rest =>
      do _ <- call (EditText (Compressing max_h crf))
                (fun w => edit_text E w (Compressing max_h crf));
      do candidate <- with_suffix current (candidate_suffix max_h crf);
      do _ <- ffmpeg_compress current candidate max_h crf;
      do sz <- stat_size candidate;
      let size_mb := human_mb sz in
      let current := candidate in
      if le_int size_mb SAFE_LIMIT_MB then ret current
      else shrink_loop rest current
  end.

Definition shrink_until_ok (filepath : string) : M string :=
  let current := filepath in
  do sz <- stat_size current;
  let size_mb := human_mb sz in
  if le_int size_mb SAFE_LIMIT_MB then ret current
  else shrink_loop attempts current.

(** [f"<b>{title}</b>" if title else "Video"] *)
Definition caption_of (title : string) : string :=
  if Str.truthy title then "<b>" +:+ title +:+ "</b>" else "Video".

Definition send_file (filepath title : string) : M unit :=
  do sz <- stat_size filepath;
  let size_mb := human_mb sz in
  let caption := caption_of title in
  do _ <- call (ChatAction UPLOAD_VIDEO)
            (fun w => send_chat_action E w UPLOAD_VIDEO);
  if gt_int size_mb TELEGRAM_LIMIT_MB then
    call (Answer TooLarge) (fun w => answer E w TooLarge)
  else
    try_except
      (if le_int size_mb SEND_AS_VIDEO_THRESHOLD_MB
       then call (AnswerVideo filepath caption)
              (fun w => answer_video E w filepath caption)
       else call (AnswerDocument filepath caption)
              (fun w => answer_document E w filepath caption))
      (fun e => call (Answer (SendingFailed e))
                  (fun w => answer E w (SendingFailed e))).

(** The inner [_extract] of [handle_url]. *)
Definition _extract (url : string) (ydl_opts : gmap string pyval)
  : M (string * string) :=
  fun w =>
    let w1 := log_event (ExtractInfo url ydl_opts) w in
    let '(outcome, d) := extract_info E w url ydl_opts in
    let w2 := mkWorld d (trace w1) in
    match outcome with
    | inl e => (Raise e, w2)
    | inr info =>
        match info with
        | InfoDict i =>
            let rd := requested_downloads i in
            let path :=
              match rd with
              | Some fp :: _ => if Str.truthy fp then Some fp else None
              | _ => None
              end in
            match
              match path with
              | Some q => Ok q
              | None =>
                  let q := prepared_filename i in
                  if exists_on d q then Ok q
                  else match Pathlib.with_suffix q ".mp4" with
                       | Some q' => Ok q'
                       | None => Raise (ValueError "invalid suffix or empty name")
                       end
              end
            with
            | Ok q => (Ok (q, Str.or_else (info_title i) "video"), w2)
            | Raise e => (Raise e, w2)
            end
        | InfoOther =>
            (Raise (RuntimeError "Unexpected info type from yt-dlp"), w2)
        end
    end.

Record Message := mkMessage { msg_text : option string }.

(** The body of the [try] block of [handle_url]. *)
Definition pipeline (url : string) (ydl_opts : gmap string pyval) : M unit :=
  do _ <- call (ChatAction RECORD_VIDEO)
            (fun w => send_chat_action E w RECORD_VIDEO);
  do (filepath, title) <- _extract url ydl_opts;
  do found <- path_exists filepath;
  if negb found
  then raise (FileNotFoundError "Downloaded file not found")
  else
    do sz <- stat_size filepath;
    let size_mb := human_mb sz in
    do filepath <-
      (if gt_int size_mb SAFE_LIMIT_MB
       then shrink_until_ok filepath
       else ret filepath);
    do _ <- call (EditText Uploading) (fun w => edit_text E w Uploading);
    send_file filepath title.

Definition handle_url (message : Message) : M unit :=
  let url := Str.strip (Str.or_else (msg_text message) "") in
  if negb (is_supported_url url) then
    call (Answer RejectLink) (fun w => answer E w RejectLink)
  else
    with_permit
      (let plat := platform_name url in
       do _ <- call (Answer (Downloading plat))
                 (fun w => answer E w (Downloading plat));
       with_tempdir (fun td =>
         let tmp_dir := td in
         let ydl_opts :=
           build_ydl_opts (IG_COOKIES_PATH (environ_IG_COOKIES_PATH E))
             tmp_dir (String.eqb plat "Instagram") MAX_HEIGHT_TARGET in
         try_except
           (pipeline url ydl_opts)
           (fun e => call (EditText (DownloadFailed e))
                       (fun w => edit_text E w (DownloadFailed e))))).

End Pipeline.

(** ** The permit pool

    [CONCURRENCY = asyncio.Semaphore(2)] is a counter; [acquire] takes one
    unit when the counter is positive and suspends the caller otherwise,
    [release] gives one unit back.  Jobs are runs of [handle_url], each with
    the events it has still to perform; the event loop picks one job at a
    time and lets it perform its next event. *)

Module Gate.

(** The initial value of the semaphore. *)
Definition CONCURRENCY : nat := 2.

Record job := mkJob {
  todo : list event;      (* what the job has still to do *)
  holding : bool          (* inside [async with CONCURRENCY] *)
}.

Record state := mkState {
  value : nat;            (* the semaphore's counter *)
  jobs : list job
}.

Definition init (runs : list (list event)) : state :=
  mkState CONCURRENCY (map (fun l => mkJob l false) runs).

(** Job [i] is scheduled and performs its next event, if it can. *)
Definition fire (i : nat) (s : state) : state :=
  match jobs s !! i with
  | Some (mkJob (Acquire :: rest) h) =>
      match value s with
      | O => s            (* locked: the job stays suspended in acquire() *)
      | S v => mkState v (<[i := mkJob rest true]> (jobs s))
      end
  | Some (mkJob (Release :: rest) h) =>
      mkState (S (value s)) (<[i := mkJob rest false]> (jobs s))
  | Some (mkJob (_ :: rest) h) =>
      mkState (value s) (<[i := mkJob rest h]> (jobs s))
  | _ => s
  end.

Definition run (schedule : list nat) (s : state) : state :=
  fold_left (fun s i => fire i s) schedule s.

(** The number of jobs inside the extraction/shrink/delivery span. *)
Definition running (s : state) : nat :=
  length (filter (fun j => holding j = true) (jobs s)).

(** The units of the pool a job holds. *)
Definition held (j : job) : nat := if holding j then 1%nat else 0%nat.

End Gate.

(** ** Reading a trace *)

Definition transcodes (l : list event) : list invocation :=
  omap (fun e => match e with Transcode i => Some i | _ => None end) l.

Definition params (i : invocation) : Z * Z := (max_h i, crf i).

(** The engine exited with status 0 and left a destination file. *)
Definition succeeded (i : invocation) : bool :=
  (returncode i =? 0) && bool_decide (is_Some (produced i)).

(** A successful attempt whose product, as [human_mb] measures it, is at or
    below the safe threshold. *)
Definition fits (i : invocation) : bool :=
  (returncode i =? 0)
  && match produced i with
     | Some n => le_int (human_mb n) SAFE_LIMIT_MB
     | None => false
     end.

(** Each attempt reads the product of the one before and writes the path
    [with_suffix] derives from it. *)
Fixpoint chained (current : string) (calls : list invocation) : Prop :=
  match calls with
  | [] => True
  | i :: rest =>
      src i = current
      /\ Pathlib.with_suffix current (candidate_suffix (max_h i) (crf i)) = Some (dst i)
      /\ chained (dst i) rest
  end.

(** The runs of the loop of [shrink_until_ok]: the result and the events of a
    run over the entries [todo] that starts from the path [current]. *)
Inductive ladder : list (Z * Z) -> string -> Res string -> list event -> Prop :=
| ladder_exhausted current :
    (* no entry is left *)
    ladder [] current (Ok current) []
| ladder_stopped_early h c rest current e :
    (* the status edit raised, or the candidate path could not be built *)
    ladder ((h, c) :: rest) current (Raise e) [EditText (Compressing h c)]
| ladder_engine_fails h c rest current i :
    (* the transcode failed *)
    src i = current -> params i = (h, c) ->
    Pathlib.with_suffix current (candidate_suffix h c) = Some (dst i) ->
    succeeded i = false ->
    ladder ((h, c) :: rest) current
      (Raise (RuntimeError "ffmpeg compress failed"))
      [EditText (Compressing h c); Transcode i]
| ladder_fits h c rest current i :
    (* the product is within the safe limit: break *)
    src i = current -> params i = (h, c) ->
    Pathlib.with_suffix current (candidate_suffix h c) = Some (dst i) ->
    succeeded i = true -> fits i = true ->
    ladder ((h, c) :: rest) current (Ok (dst i))
      [EditText (Compressing h c); Transcode i]
| ladder_next h c rest current i r new :
    (* the product is still too large: on to the next entry *)
    src i = current -> params i = (h, c) ->
    Pathlib.with_suffix current (candidate_suffix h c) = Some (dst i) ->
    succeeded i = true -> fits i = false ->
    ladder rest (dst i) r new ->
    ladder ((h, c) :: rest) current r
      (EditText (Compressing h c) :: Transcode i :: new).

(** The events of a list of attempts: each transcode right after the status
    edit that announces it. *)
Definition announced (calls : list invocation) : list event :=
  flat_map (fun i => [EditText (Compressing (max_h i) (crf i)); Transcode i]) calls.

(** The events of the [try] block of a job that extracts [url] with the
    options [opts]: whatever the transport and the transcoder do, and the one
    extraction. *)
Definition body_event (url : string) (opts : gmap string pyval) (e : event) : Prop :=
  match e with
  | Acquire | Release | MkDtemp _ | Cleanup _ => False
  | ExtractInfo u o => u = url /\ o = opts
  | _ => True
  end.

(** The calls to the chat transport. *)
Definition transport_event (e : event) : bool :=
  match e with
  | Answer _ | EditText _ | ChatAction _ | AnswerVideo _ _ | AnswerDocument _ _ => true
  | _ => false
  end.

(** A run that does not touch the permit pool. *)
Definition permit_free (l : list event) : Prop :=
  Forall (fun e => e <> Acquire /\ e <> Release) l.

(** A run that either never touches the pool, or takes a permit first and
    gives it back last. *)
Definition bracketed (l : list event) : Prop :=
  permit_free l \/ exists mid, l = Acquire :: mid ++ [Release] /\ permit_free mid.

(** What holds of every job of the pool, whatever the schedule: a job inside
    the span has its release ahead, as its last event. *)
Definition job_ok (j : Gate.job) : Prop :=
  if Gate.holding j
  then exists mid, Gate.todo j = mid ++ [Release] /\ permit_free mid
  else bracketed (Gate.todo j).

Definition pool_ok (s : Gate.state) : Prop :=
  (Gate.value s + Gate.running s = Gate.CONCURRENCY)%nat
  /\ Forall job_ok (Gate.jobs s).

(** One megabyte, the unit of the limits. *)
Definition MB : Z := 1024 * 1024.

(** ** Sample collaborators, to run the pipeline on concrete inputs *)

Module Sample.

Definition quiet {A} : World -> A -> option exn := fun _ _ => None.
Definition quiet2 {A B} : World -> A -> B -> option exn := fun _ _ _ => None.

(** An engine that exits with [rc] and, when [out] is a size, writes a
    destination (the last argument of the command) of that size. *)
Definition engine (rc : Z) (out : option Z)
  : World -> list string -> Z * gmap string Z :=
  fun w cmd =>
    (rc, match out with
         | Some n => <[List.last cmd "" := n]> (disk w)
         | None => disk w
         end).

(** An extraction that downloads [size] bytes to [td/clip.mp4]. *)
Definition download (td : string) (size : Z)
  : World -> string -> gmap string pyval -> (exn + ytdl_info) * gmap string Z :=
  fun w _ _ =>
    let fp := Pathlib.joinpath td "clip.mp4" in
    (inr (InfoDict (mkInfo [Some fp] fp (Some "clip"))), <[fp := size]> (disk w)).

(** Collaborators that never raise: the variable IG_COOKIES_PATH is
    [getenv], the download has [size] bytes, the transcoder is [ffmpeg]. *)
Definition env_with (getenv : option string) (size : Z)
    (ffmpeg : World -> list string -> Z * gmap string Z) : Env :=
  mkEnv getenv quiet quiet quiet quiet2 quiet2
    (download "/tmp/job" size) ffmpeg
    (fun w => inr ("/tmp/job", <["/tmp/job" := 4096]> (disk w))).

Definition env (size : Z) (ffmpeg : World -> list string -> Z * gmap string Z) : Env :=
  env_with None size ffmpeg.

Definition clip : string := "/tmp/job/clip.mp4".

Definition empty_world : World := mkWorld ∅ [].

(** A world that holds one file. *)
Definition world_with (p : string) (size : Z) : World :=
  mkWorld {[ p := size ]} [].

End Sample.

(** ** Reading a text without the [re] module *)

(** [s] starts with [needle], letter case apart. *)
Fixpoint starts_ci (needle s : string) : bool :=
  match needle with
  | String c needle' =>
      match s with
      | String d s' => Re.same_char true c d && starts_ci needle' s'
      | EmptyString => false
      end
  | EmptyString => true
  end.

(** [needle] occurs in [s], letter case apart. *)
Fixpoint contains_ci (needle s : string) : bool :=
  starts_ci needle s
  || match s with
     | String _ s' => contains_ci needle s'
     | EmptyString => false
     end.


(** [s] without its first [n] characters. *)
Fixpoint skip (n : string) (s : string) : string :=
  match n, s with
  | String _ n', String _ s' => skip n' s'
  | _, _ => s
  end.

(** Some way of matching was found. *)
Definition hit (l : list string) : bool :=
  match l with [] => false | _ :: _ => true end.

(** No character of the needle matches a blank. *)
Definition solid (n : string) : Prop :=
  forall c, Pathlib.contains c n = true -> Str.isspace (Str.lower c) = false.

(** ** Reading the events of a job *)

Definition is_upload (e : event) : bool :=
  match e with
  | AnswerVideo _ _ | AnswerDocument _ _ => true
  | _ => false
  end.

Definition is_extraction (e : event) : bool :=
  match e with
  | ExtractInfo _ _ => true
  | _ => false
  end.

(** The events of the delivery of a file titled [title]: the status edit, the
    upload action, an upload captioned from the title, and the notices. *)
Definition delivery_event (title : string) (e : event) : Prop :=
  match e with
  | EditText t => t = Uploading
  | ChatAction a => a = UPLOAD_VIDEO
  | Answer t => t = TooLarge \/ exists x, t = SendingFailed x
  | AnswerVideo _ c | AnswerDocument _ c => c = caption_of title
  | _ => False
  end.

(** The stages of the [try] block of a job, in the order of its events: what
    precedes the ladder, the ladder, the delivery. *)
Definition stages (url : string) (opts : gmap string pyval)
    (pre S post : list event) : Prop :=
  (S = [] \/ exists current r, ladder attempts current r S)
  /\ ((S = [] /\ post = []
       /\ (pre = [ChatAction RECORD_VIDEO]
           \/ pre = [ChatAction RECORD_VIDEO; ExtractInfo url opts]))
      \/ (pre = [ChatAction RECORD_VIDEO; ExtractInfo url opts]
          /\ exists title, title <> ""
               /\ Forall (delivery_event title) post
               /\ (length (List.filter is_upload post) <= 1)%nat)).

(** The options of the job that handles [url] in the scratch directory [td]. *)
Definition job_opts (E : Env) (url td : string) : gmap string pyval :=
  build_ydl_opts (IG_COOKIES_PATH (environ_IG_COOKIES_PATH E)) td
    (String.eqb (platform_name url) "Instagram") MAX_HEIGHT_TARGET.

(** The world in which a job that was called in [w] asks for its scratch
    directory: it holds a permit and has sent its first reply. *)
Definition at_mkdtemp (url : string) (w : World) : World :=
  log_event (Answer (Downloading (platform_name url))) (log_event Acquire w).

(** The world in which that job calls the extraction, once the directory [td]
    exists on the disk [d]. *)
Definition at_extraction (url td : string) (d : gmap string Z) (w : World) : World :=
  log_event (ChatAction RECORD_VIDEO)
    (log_event (MkDtemp td) (mkWorld d (trace (at_mkdtemp url w)))).

(** ** More sample collaborators *)

Module Faulty.

(** An extraction that raises [e] and leaves the disk as it is. *)
Definition no_download (e : exn)
  : World -> string -> gmap string pyval -> (exn + ytdl_info) * gmap string Z :=
  fun w _ _ => (inl e, disk w).

Definition refuse {A B} (e : exn) : World -> A -> B -> option exn :=
  fun _ _ _ => Some e.

(** Collaborators whose extraction raises [e]. *)
Definition env_no_download (e : exn) : Env :=
  mkEnv None Sample.quiet Sample.quiet Sample.quiet Sample.quiet2 Sample.quiet2
    (no_download e) (Sample.engine 0 None)
    (fun w => inr ("/tmp/job", <["/tmp/job" := 4096]> (disk w))).

(** Collaborators whose uploads raise [e]; the download has [size] bytes. *)
Definition env_no_upload (e : exn) (size : Z) : Env :=
  mkEnv None Sample.quiet Sample.quiet Sample.quiet (refuse e) (refuse e)
    (Sample.download "/tmp/job" size) (Sample.engine 0 None)
    (fun w => inr ("/tmp/job", <["/tmp/job" := 4096]> (disk w))).

(** Collaborators whose [message.answer] raises [e]. *)
Definition env_no_answer (e : exn) : Env :=
  mkEnv None (fun _ _ => Some e) Sample.quiet Sample.quiet Sample.quiet2 Sample.quiet2
    (Sample.download "/tmp/job" 0) (Sample.engine 0 None)
    (fun w => inr ("/tmp/job", <["/tmp/job" := 4096]> (disk w))).

End Faulty.

(** The text calls of the transport return normally. *)
Definition healthy_transport (E : Env) : Prop :=
  (forall w t, answer E w t = None)
  /\ (forall w t, edit_text E w t = None)
  /\ (forall w a, send_chat_action E w a = None).

(** * Properties *)

(** ** [human_mb] against the limits, in bytes *)

Lemma round_half_even_le (n c : Z) (d : positive) :
  Z.even c = true ->
  round_half_even (n # d) <= c <-> 2 * n <= (2 * c + 1) * Z.pos d.
Proof.
  intros Hc. unfold round_half_even. cbn [Qnum Qden].
  pose proof (Z.div_mod n (Z.pos d) ltac:(lia)) as Hdm.
  pose proof (Z.mod_pos_bound n (Z.pos d) ltac:(lia)) as Hr.
  set (q := n / Z.pos d) in *. set (r := n mod Z.pos d) in *.
  destruct (Z.ltb_spec (2 * r) (Z.pos d)); [nia|].
  destruct (Z.ltb_spec (Z.pos d) (2 * r)); [nia|].
  destruct (Z.even q) eqn:Hq; [nia|].
  assert (q <> c) by (intros ->; congruence).
  nia.
Qed.

Lemma le_int_human_mb (b k : Z) :
  le_int (human_mb b) k = true <-> 200 * b <= (200 * k + 1) * MB.
Proof.
  unfold le_int, human_mb, py_round, Qle_bool.
  cbn [Qnum Qden inject_Z].
  change (Z.pos (Z.to_pos (10 ^ Z.of_nat 2))) with 100.
  rewrite Z.leb_le, Z.mul_1_r.
  change (inject_Z b / inject_Z (1024 * 1024) * inject_Z 100)%Q
    with ((b * 1 * 100) # 1048576)%Q.
  rewrite (round_half_even_le _ (k * 100)).
  - unfold MB. lia.
  - rewrite Z.even_mul. apply orb_true_r.
Qed.

Lemma gt_int_human_mb (b k : Z) :
  gt_int (human_mb b) k = true <-> (200 * k + 1) * MB < 200 * b.
Proof.
  unfold gt_int. rewrite negb_true_iff, <- not_true_iff_false.
  change (Qle_bool (human_mb b) (inject_Z k)) with (le_int (human_mb b) k).
  rewrite le_int_human_mb. lia.
Qed.

Lemma safe_bytes b : le_int (human_mb b) SAFE_LIMIT_MB = true <-> b <= 1992299642.
Proof. rewrite le_int_human_mb. unfold SAFE_LIMIT_MB, MB. lia. Qed.

(** ** [strip] and [search] *)

Section StrFacts.
Import Str.

Lemma lstrip_cut s : exists pre, s = pre +:+ lstrip s.
Proof.
  induction s as [|c s [pre IH]]; [by exists ""|].
  cbn [lstrip]. destruct (isspace c).
  - exists (String c pre). change (String c s = String c (pre +:+ lstrip s)).
    by f_equal.
  - by exists "".
Qed.

Lemma rstrip_cut s : exists post, s = rstrip s +:+ post.
Proof.
  induction s as [|c s [post IH]]; [by exists ""|].
  cbn [rstrip]. destruct (rstrip s) as [|d t] eqn:Ht.
  - destruct (isspace c).
    + by exists (String c s).
    + exists post. change (String c s = String c ("" +:+ post)). by f_equal.
  - exists post. change (String c s = String c (String d t +:+ post)). by f_equal.
Qed.

Lemma strip_cut s : exists pre post, s = pre +:+ (strip s +:+ post).
Proof.
  destruct (lstrip_cut s) as [pre Hpre].
  destruct (rstrip_cut (lstrip s)) as [post Hpost].
  exists pre, post. unfold strip. by rewrite <- Hpost.
Qed.
End StrFacts.

Section ReFacts.
Import Re.

Lemma ends_app ic r : forall s t x,
  In x (ends ic r s) -> In (x +:+ t) (ends ic r (s +:+ t)).
Proof.
  induction r as [c|r1 IH1 r2 IH2|r1 IH1 r2 IH2|r IH|]; intros s t x; cbn [ends].
  - destruct s as [|d s]; [intros []|].
    change (String d s +:+ t) with (String d (s +:+ t)). cbn [ends].
    destruct (same_char ic c d); [|intros []].
    intros [<-|[]]. by left.
  - rewrite !in_flat_map. intros (y & Hy & Hx).
    exists (y +:+ t). split; [by apply IH1 | by apply IH2].
  - rewrite !in_app_iff. intros [H|H]; [left; by apply IH1 | right; by apply IH2].
  - rewrite !in_app_iff. intros [H|[<-|[]]]; [left; by apply IH | right; by left].
  - intros [<-|[]]. by left.
Qed.

Lemma matches_at_app p s t :
  matches_at p s = true -> matches_at p (s +:+ t) = true.
Proof.
  unfold matches_at.
  destruct (ends (ignorecase p) (pattern p) s) as [|x l] eqn:Hs; [done|].
  intros _.
  assert (In (x +:+ t) (ends (ignorecase p) (pattern p) (s +:+ t))) as Hin.
  { apply ends_app. rewrite Hs. by left. }
  by destruct (ends (ignorecase p) (pattern p) (s +:+ t)).
Qed.

Lemma search_app_r p s t : search p s = true -> search p (s +:+ t) = true.
Proof.
  induction s as [|c s IH]; cbn [search].
  - rewrite orb_false_r. intros H%(matches_at_app _ _ t).
    change ("" +:+ t) with t in *.
    destruct t; cbn [search]; by rewrite H.
  - change (String c s +:+ t) with (String c (s +:+ t)). cbn [search].
    intros [H|H]%orb_true_iff; apply orb_true_iff.
    + left. by apply (matches_at_app _ _ t) in H.
    + right. by apply IH.
Qed.

Lemma search_app_l p s t : search p t = true -> search p (s +:+ t) = true.
Proof.
  intros H. induction s as [|c s IH]; [done|].
  change (String c s +:+ t) with (String c (s +:+ t)).
  cbn [search]. rewrite IH. apply orb_true_r.
Qed.

Lemma search_strip p s : search p (Str.strip s) = true -> search p s = true.
Proof.
  intros H. destruct (strip_cut s) as (pre & post & Hs). rewrite Hs.
  by apply search_app_l, search_app_r.
Qed.
End ReFacts.

(** ** Candidate paths *)

Section PathFacts.
Import Pathlib.

Lemma count_app c a b : count c (a +:+ b) = (count c a + count c b)%nat.
Proof.
  induction a as [|d a IH]; [done|].
  change (String d a +:+ b) with (String d (a +:+ b)).
  cbn [count]. rewrite IH. lia.
Qed.

Lemma split_name_cut p : p = (split_name p).1 +:+ (split_name p).2.
Proof.
  induction p as [|c p IH]; [done|].
  cbn [split_name]. destruct (split_name p) as [d n]. cbn [fst snd] in IH.
  destruct d as [|e d].
  - change ("" +:+ n) with n in IH. subst p. by case_bool_decide.
  - cbn [fst snd]. change (String c p = String c (String e d +:+ n)). by f_equal.
Qed.

Lemma rsplit_dot_cut n a b :
  rsplit_dot n = Some (a, b) ->
  n = a +:+ b /\ count dot b = 1%nat.
Proof.
  revert a b. induction n as [|c n IH]; intros a b; [done|].
  cbn [rsplit_dot]. destruct (rsplit_dot n) as [[a' b']|] eqn:Hn.
  - intros [= <- <-]. destruct (IH _ _ eq_refl) as [-> Hb].
    split; [done|exact Hb].
  - case_bool_decide as Hc; [|done]. intros [= <- <-]. split; [done|].
    subst c. cbn [count]. rewrite bool_decide_eq_true_2 by done.
    f_equal. clear IH. induction n as [|d n IHn]; [done|].
    cbn [rsplit_dot] in Hn. destruct (rsplit_dot n) as [[? ?]|]; [done|].
    case_bool_decide as Hd; [done|]. cbn [count].
    rewrite bool_decide_eq_false_2 by done. by apply IHn.
Qed.

Lemma split_suffix_cut n :
  n = (split_suffix n).1 +:+ (split_suffix n).2
  /\ (count dot (split_suffix n).2 <= 1)%nat.
Proof.
  unfold split_suffix.
  assert (n = n +:+ "") as Hnil.
  { clear. induction n as [|c n IH]; [done|].
    change (String c n = String c (n +:+ "")). by f_equal. }
  destruct (rsplit_dot n) as [[a b]|] eqn:Hn; [|cbn; split; [done|lia]].
  destruct (rsplit_dot_cut _ _ _ Hn) as [-> Hb].
  destruct a as [|c a]; [cbn [fst snd count]; split; [done|lia]|].
  destruct b as [|d [|e b]]; cbn [fst snd]; try (cbn [count]; split; [done|lia]).
  split; [done|]. lia.
Qed.

Lemma candidate_suffix_dots h c : (3 <= count dot (candidate_suffix h c))%nat.
Proof.
  unfold candidate_suffix. rewrite !count_app.
  change (count dot ".") with 1%nat.
  change (count dot "p.crf") with 1%nat.
  change (count dot ".mp4") with 1%nat. lia.
Qed.

Lemma with_suffix_dots p h c q :
  with_suffix p (candidate_suffix h c) = Some q ->
  (count dot p + 2 <= count dot q)%nat.
Proof.
  unfold with_suffix, name. destruct (valid_suffix _); [|done].
  pose proof (split_name_cut p) as Hp.
  case_bool_decide; [done|].
  destruct (split_name p) as [d n]. cbn [fst snd] in *.
  destruct n as [|x n]; [done|]. intros [= <-].
  destruct (split_suffix_cut (String x n)) as [Hn Hs].
  pose proof (candidate_suffix_dots h c).
  rewrite Hp, Hn at 1. rewrite !count_app. lia.
Qed.

Lemma str_length_app (a b : string) :
  String.length (a +:+ b) = (String.length a + String.length b)%nat.
Proof.
  induction a as [|x a IH]; [done|].
  change (String x a +:+ b) with (String x (a +:+ b)). cbn [String.length].
  by rewrite IH.
Qed.

Lemma contains_app c a b : contains c (a +:+ b) = contains c a || contains c b.
Proof.
  induction a as [|d a IH]; [done|].
  change (String d a +:+ b) with (String d (a +:+ b)).
  cbn [contains]. rewrite IH. by rewrite orb_assoc.
Qed.

Lemma split_name_plain s : contains sep s = false -> split_name s = ("", s).
Proof.
  induction s as [|c s IH]; [done|]. cbn [contains split_name].
  intros [Hc Hs]%orb_false_iff. rewrite (IH Hs).
  apply bool_decide_eq_false in Hc.
  rewrite bool_decide_eq_false_2; [done|]. by intros ->.
Qed.

Lemma split_name_plain_name p : contains sep (split_name p).2 = false.
Proof.
  induction p as [|c p IH]; [done|]. cbn [split_name].
  destruct (split_name p) as [d n]. cbn [snd] in IH.
  destruct d as [|e d]; [|done].
  case_bool_decide as Hc; [done|]. cbn [snd contains].
  rewrite IH, orb_false_r. apply bool_decide_eq_false. congruence.
Qed.

Lemma split_name_app a b :
  contains sep b = false ->
  split_name (a +:+ b) = ((split_name a).1, (split_name a).2 +:+ b).
Proof.
  intros Hb. induction a as [|c a IH].
  - by apply split_name_plain.
  - change (String c a +:+ b) with (String c (a +:+ b)). cbn [split_name].
    rewrite IH. destruct (split_name a) as [d n]. cbn [fst snd].
    destruct d as [|e d]; [|done]. by case_bool_decide.
Qed.

Lemma valid_suffix_plain sfx : valid_suffix sfx = true -> contains sep sfx = false.
Proof. unfold valid_suffix. intros [H _]%andb_true_iff. by apply negb_true_iff. Qed.

(** A path that has a name takes every valid suffix, and the path it
    becomes has a name. *)
Lemma with_suffix_named p sfx :
  valid_suffix sfx = true -> sfx <> "" -> name p <> "" ->
  exists q, with_suffix p sfx = Some q /\ name q <> "".
Proof.
  intros Hv Hs Hn. unfold with_suffix. rewrite Hv.
  destruct (name p) as [|x n] eqn:Hname; [done|]. eexists. split; [done|].
  assert (contains sep (String x n) = false) as Hplain.
  { revert Hname. unfold name. case_bool_decide; [done|]. intros <-.
    apply split_name_plain_name. }
  destruct (split_suffix_cut (String x n)) as [Hcut _].
  rewrite Hcut, contains_app in Hplain. apply orb_false_iff in Hplain as [Hstem _].
  set (stem := (split_suffix (String x n)).1) in *.
  assert (exists y z t, sfx = String y (String z t)) as (y & z & t & ->).
  { unfold valid_suffix in Hv. destruct sfx as [|y [|z t]]; [done| |eauto].
    by rewrite andb_false_r in Hv. }
  unfold name. rewrite bool_decide_eq_false_2.
  - rewrite split_name_app.
    + cbn [snd]. intros Heq%(f_equal String.length).
      rewrite !str_length_app in Heq. cbn in Heq. lia.
    + rewrite contains_app, Hstem. by apply valid_suffix_plain.
  - intros Heq%(f_equal String.length). rewrite !str_length_app in Heq.
    cbn in Heq. lia.
Qed.

Lemma candidate_suffix_valid :
  Forall (fun hc => valid_suffix (candidate_suffix hc.1 hc.2) = true) attempts.
Proof. repeat constructor. Qed.
End PathFacts.

(** ** The runs of the ladder *)

Section LadderFacts.

Lemma transcodes_app l1 l2 : transcodes (l1 ++ l2) = transcodes l1 ++ transcodes l2.
Proof. apply omap_app. Qed.

Lemma transcodes_announced calls : transcodes (announced calls) = calls.
Proof. induction calls as [|i calls IH]; [done|]. cbn. by f_equal. Qed.

Lemma ladder_nil current r new :
  ladder [] current r new -> r = Ok current /\ new = [].
Proof. by inversion 1. Qed.

Lemma ladder_params todo current r new :
  ladder todo current r new -> map params (transcodes new) `prefix_of` todo.
Proof.
  induction 1 as [| | ? ? ? ? ? ? Hp | ? ? ? ? ? ? Hp | ? ? ? ? ? ? ? ? Hp ? ? ? ? IH];
    cbn; try rewrite Hp.
  - done.
  - apply prefix_nil.
  - apply prefix_cons, prefix_nil.
  - apply prefix_cons, prefix_nil.
  - by apply prefix_cons.
Qed.

Lemma ladder_chained todo current r new :
  ladder todo current r new -> chained current (transcodes new).
Proof. induction 1; unfold params in *; simplify_eq; cbn; auto. Qed.

(** An attempt that is followed by anything succeeded and did not fit. *)
Lemma ladder_continues todo current r new :
  ladder todo current r new ->
  forall l1 i l2, new = l1 ++ Transcode i :: l2 -> l2 <> [] ->
    succeeded i = true /\ fits i = false.
Proof.
  induction 1 as [| | | | h c rest current i0 r new ? ? ? Hs Hf Hl IH];
    intros l1 j l2 Heq Hne.
  - by destruct l1.
  - destruct l1 as [|? [|? ?]]; by simplify_eq/=.
  - destruct l1 as [|? [|? [|? ?]]]; by simplify_eq/=.
  - destruct l1 as [|? [|? [|? ?]]]; by simplify_eq/=.
  - destruct l1 as [|? [|? l1]]; simplify_eq/=; [done|]. by eapply IH.
Qed.

Lemma ladder_raise_after_failure todo current r new :
  ladder todo current r new ->
  forall l i, new = l ++ [Transcode i] -> succeeded i = false ->
    r = Raise (RuntimeError "ffmpeg compress failed").
Proof.
  induction 1 as [| | | | h c rest current i0 r new ? ? ? Hs Hf Hl IH];
    intros l j Heq Hfail.
  - by destruct l.
  - destruct l as [|? [|? ?]]; by simplify_eq/=.
  - done.
  - destruct l as [|? [|? [|? ?]]]; simplify_eq/=. congruence.
  - destruct l as [|? [|? l]]; simplify_eq/=.
    + congruence.
    + by eapply IH.
Qed.

(** When the loop returns, it returns the product of its last attempt, and
    either that attempt fits or every entry was tried. *)
Lemma ladder_returns todo current r new p :
  ladder todo current r new -> r = Ok p ->
  (todo = [] /\ new = [] /\ p = current)
  \/ exists l i, transcodes new = l ++ [i] /\ p = dst i /\ succeeded i = true
       /\ (fits i = true \/ length (transcodes new) = length todo).
Proof.
  induction 1 as [| | |h c rest current i Hs Hp Hw Hok Hfit
                  | h c rest current i0 r new ? ? ? Hs Hf Hl IH]; intros Hr.
  - left. by simplify_eq.
  - done.
  - done.
  - right. exists [], i. simplify_eq. cbn. auto.
  - right. destruct (IH Hr) as [(-> & -> & ->)|(l & i & Hl' & -> & Hok & Hend)].
    + exists [], i0. cbn. auto.
    + exists (i0 :: l), i.
      change (transcodes (EditText (Compressing h c) :: Transcode i0 :: new))
        with (i0 :: transcodes new).
      rewrite Hl'. split; [done|]. split; [done|].
      split; [done|]. destruct Hend as [?|Hlen]; [by left|right].
      rewrite <- Hl'. cbn [length]. by rewrite Hlen.
Qed.

(** A run that tried every entry and whose last attempt succeeded returns
    the product of that attempt. *)
Lemma ladder_full todo current r new :
  ladder todo current r new ->
  length (transcodes new) = length todo ->
  forall l i, transcodes new = l ++ [i] -> succeeded i = true -> r = Ok (dst i).
Proof.
  induction 1 as [| |h c rest current i0 ? ? ? Hfail|h c rest current i0
                  | h c rest current i0 r new ? ? ? Hs Hf Hl IH];
    intros Hlen l j Heq Hok; cbn in *.
  - by destruct l.
  - done.
  - destruct l as [|? [|? ?]]; simplify_eq/=. congruence.
  - destruct l as [|? [|? ?]]; by simplify_eq/=.
  - destruct l as [|j' l]; simplify_eq/=.
    + match goal with Hnil : omap _ new = [] |- _ => rewrite Hnil in Hlen end.
      destruct rest; [|done]. by apply ladder_nil in Hl as [-> _].
    + by eapply IH.
Qed.

Lemma ladder_events todo current r new :
  ladder todo current r new ->
  Forall (fun e => match e with
                   | EditText (Compressing _ _) | Transcode _ => True
                   | _ => False
                   end) new.
Proof. induction 1; repeat constructor; done. Qed.

End LadderFacts.

(** ** The pipeline refines the ladder *)

Section Run.
Variable E : Env.

Lemma shrink_loop_ladder todo : forall current w,
  exists new : list event,
    trace (shrink_loop E todo current w).2 = trace w ++ new
    /\ ladder todo current (shrink_loop E todo current w).1 new.
Proof.
  induction todo as [|[h c] rest IH]; intros current w.
  - exists []. cbn. rewrite app_nil_r. split; [done|constructor].
  - cbn [shrink_loop].
    unfold bind, call, with_suffix, ffmpeg_compress, stat_size, ret, raise.
    destruct (edit_text E w (Compressing h c)) as [e|].
    { exists [EditText (Compressing h c)]. split; [done|constructor]. }
    destruct (Pathlib.with_suffix current (candidate_suffix h c)) as [cand|] eqn:Hc.
    2:{ exists [EditText (Compressing h c)]. split; [done|constructor]. }
    destruct (run_ffmpeg E _ _) as [rc d] eqn:Hrun.
    set (i := mkInvocation current cand h c rc (d !! cand)).
    unfold exists_on.
    destruct (d !! cand) as [n|] eqn:Hn.
    2:{ exists [EditText (Compressing h c); Transcode i]. split.
        - rewrite orb_true_r. cbn. by rewrite <- app_assoc.
        - rewrite orb_true_r. apply ladder_engine_fails; try done.
          unfold succeeded. cbn [returncode produced i].
          rewrite bool_decide_eq_false_2 by (by intros [? ?]).
          apply andb_false_r. }
    destruct (rc =? 0) eqn:Hrc; cbn [negb orb].
    2:{ exists [EditText (Compressing h c); Transcode i]. split.
        - cbn. by rewrite <- app_assoc.
        - apply ladder_engine_fails; try done.
          unfold succeeded. cbn [returncode produced i]. by rewrite Hrc. }
    cbn [disk log_event]. rewrite Hn.
    assert (succeeded i = true) as Hok.
    { unfold succeeded. cbn [returncode produced i]. rewrite Hrc.
      by rewrite bool_decide_eq_true_2 by eauto. }
    assert (fits i = le_int (human_mb n) SAFE_LIMIT_MB) as Hfits.
    { unfold fits. cbn [returncode produced i]. by rewrite Hrc. }
    destruct (le_int (human_mb n) SAFE_LIMIT_MB) eqn:Hfit.
    { exists [EditText (Compressing h c); Transcode i]. split.
      - cbn. by rewrite <- app_assoc.
      - by apply (ladder_fits h c rest current i). }
    match goal with |- context [shrink_loop E rest cand ?w'] =>
      destruct (IH cand w') as (new & Htr & Hl) end.
    exists (EditText (Compressing h c) :: Transcode i :: new). split.
    + rewrite Htr. cbn. by rewrite <- !app_assoc.
    + by apply (ladder_next h c rest current i).
Qed.

(** When the status edits return and the path has a name, the loop makes at
    least one attempt, goes on after every product that is still too large,
    and ends with an attempt that failed, that fits, or that was the last
    entry. *)
Lemma shrink_loop_attempts todo : forall current w r w',
  Forall (fun hc => Pathlib.valid_suffix (candidate_suffix hc.1 hc.2) = true) todo ->
  (forall w0 h c, edit_text E w0 (Compressing h c) = None) ->
  Pathlib.name current <> "" ->
  todo <> [] ->
  shrink_loop E todo current w = (r, w') ->
  exists calls i,
    trace w' = trace w ++ announced (calls ++ [i])
    /\ Forall (fun j => succeeded j = true /\ fits j = false) calls
    /\ ((succeeded i = false /\ r = Raise (RuntimeError "ffmpeg compress failed"))
        \/ (fits i = true /\ r = Ok (dst i))
        \/ (succeeded i = true /\ fits i = false
            /\ length (calls ++ [i]) = length todo /\ r = Ok (dst i))).
Proof.
  induction todo as [|[h c] rest IH]; intros current w r w' Hv Hedit Hname Hne; [done|].
  apply Forall_cons in Hv as [Hv Hrest]. cbn [fst snd] in Hv.
  cbn [shrink_loop].
  unfold bind, call, with_suffix, ffmpeg_compress, stat_size, ret, raise.
  rewrite Hedit.
  destruct (with_suffix_named current (candidate_suffix h c) Hv) as (cand & Hc & Hcn);
    [done|done|]. rewrite Hc.
  destruct (run_ffmpeg E _ _) as [rc d] eqn:Hrun.
  set (i := mkInvocation current cand h c rc (d !! cand)).
  unfold exists_on.
  destruct (d !! cand) as [n|] eqn:Hn.
  2:{ rewrite orb_true_r. intros [= <- <-]. exists [], i. split.
      - cbn. by rewrite <- app_assoc.
      - split; [constructor|]. left. split; [|done].
        unfold succeeded. cbn [returncode produced i].
        rewrite bool_decide_eq_false_2 by (by intros [? ?]).
        apply andb_false_r. }
  destruct (rc =? 0) eqn:Hrc; cbn [negb orb].
  2:{ intros [= <- <-]. exists [], i. split.
      - cbn. by rewrite <- app_assoc.
      - split; [constructor|]. left. split; [|done].
        unfold succeeded. cbn [returncode produced i]. by rewrite Hrc. }
  cbn [disk log_event]. rewrite Hn.
  assert (succeeded i = true) as Hok.
  { unfold succeeded. cbn [returncode produced i]. rewrite Hrc.
    by rewrite bool_decide_eq_true_2 by eauto. }
  assert (fits i = le_int (human_mb n) SAFE_LIMIT_MB) as Hfits.
  { unfold fits. cbn [returncode produced i]. by rewrite Hrc. }
  destruct (le_int (human_mb n) SAFE_LIMIT_MB) eqn:Hfit.
  { intros [= <- <-]. exists [], i. split.
    - cbn. by rewrite <- app_assoc.
    - split; [constructor|]. right. left. done. }
  destruct rest as [|hc rest].
  { cbn [shrink_loop]. intros [= <- <-]. exists [], i. split.
    - cbn. by rewrite <- app_assoc.
    - split; [constructor|]. right. right. done. }
  intros Hrec.
  apply IH in Hrec as (calls & j & Htr & Hcalls & Hlast); [|done..].
  exists (i :: calls), j. split.
  - rewrite Htr. cbn. by rewrite <- !app_assoc.
  - split; [by constructor|].
    destruct Hlast as [?|[?|(? & ? & Hlen & ?)]]; [by left|by right; left|].
    right. right. split_and!; try done. cbn [app length]. by rewrite Hlen.
Qed.
End Run.

(** ** Traces *)

Section TraceFacts.

Lemma transport_no_transcode l :
  Forall (fun e => transport_event e = true) l -> transcodes l = [].
Proof. induction 1 as [|e l He _ IH]; [done|]. destruct e; try done; exact IH. Qed.

Lemma transport_body_event url opts l :
  Forall (fun e => transport_event e = true) l -> Forall (body_event url opts) l.
Proof. intros H. eapply Forall_impl; [exact H|]. by intros []. Qed.

Lemma ladder_body_event url opts todo current r new :
  ladder todo current r new -> Forall (body_event url opts) new.
Proof.
  intros H%ladder_events. eapply Forall_impl; [exact H|]. by intros [].
Qed.

Lemma app_cons_split {A} (l1 l2 a b : list A) x :
  l1 ++ x :: l2 = a ++ b ->
  (exists k, a = l1 ++ x :: k /\ l2 = k ++ b)
  \/ (exists k, b = k ++ x :: l2 /\ l1 = a ++ k).
Proof.
  revert a. induction l1 as [|y l1 IH]; intros a Heq.
  - destruct a as [|z a]; simplify_eq/=.
    + right. by exists [].
    + left. by exists a.
  - destruct a as [|z a]; cbn in Heq.
    + right. exists (y :: l1). by subst b.
    + injection Heq as -> Heq.
      destruct (IH _ Heq) as [(k & -> & ->)|(k & -> & ->)].
      * left. by exists k.
      * right. by exists k.
Qed.

Lemma transcode_split pre S post l1 i l2 :
  pre ++ S ++ post = l1 ++ Transcode i :: l2 ->
  transcodes pre = [] -> transcodes post = [] ->
  exists s1 s2, S = s1 ++ Transcode i :: s2 /\ l1 = pre ++ s1 /\ l2 = s2 ++ post.
Proof.
  intros Heq Hpre Hpost. symmetry in Heq.
  apply app_cons_split in Heq as [(k & -> & _)|(k & Heq & ->)].
  { rewrite transcodes_app in Hpre. by destruct (transcodes l1). }
  symmetry in Heq.
  apply app_cons_split in Heq as [(k' & -> & ->)|(k' & -> & _)].
  - by exists k, k'.
  - rewrite transcodes_app in Hpost. by destruct (transcodes k').
Qed.

End TraceFacts.

Section Stages.
Variable E : Env.

Lemma shrink_until_ok_missing filepath w :
  disk w !! filepath = None ->
  shrink_until_ok E filepath w = (Raise (FileNotFoundError filepath), w).
Proof. intros H. unfold shrink_until_ok, bind, stat_size. by rewrite H. Qed.

Lemma shrink_until_ok_small filepath w sz :
  disk w !! filepath = Some sz ->
  le_int (human_mb sz) SAFE_LIMIT_MB = true ->
  shrink_until_ok E filepath w = (Ok filepath, w).
Proof. intros H1 H2. unfold shrink_until_ok, bind, stat_size. by rewrite H1, H2. Qed.

Lemma shrink_until_ok_large filepath w sz :
  disk w !! filepath = Some sz ->
  le_int (human_mb sz) SAFE_LIMIT_MB = false ->
  shrink_until_ok E filepath w = shrink_loop E attempts filepath w.
Proof. intros H1 H2. unfold shrink_until_ok, bind, stat_size. by rewrite H1, H2. Qed.

(** Every run of [shrink_until_ok] either leaves the world as it is or is a
    run of the ladder over the four entries. *)
Lemma shrink_until_ok_run filepath w :
  (shrink_until_ok E filepath w).2 = w
  \/ exists new : list event,
       trace (shrink_until_ok E filepath w).2 = trace w ++ new
       /\ ladder attempts filepath (shrink_until_ok E filepath w).1 new.
Proof.
  destruct (disk w !! filepath) as [sz|] eqn:Hsz.
  - destruct (le_int (human_mb sz) SAFE_LIMIT_MB) eqn:Hle.
    + left. by rewrite (shrink_until_ok_small _ _ _ Hsz Hle).
    + right. rewrite (shrink_until_ok_large _ _ _ Hsz Hle).
      apply shrink_loop_ladder.
  - left. by rewrite shrink_until_ok_missing.
Qed.

Lemma call_run e v w :
  call e v w = (match v w with None => Ok tt | Some x => Raise x end, log_event e w).
Proof. unfold call. by destruct (v w). Qed.

Lemma send_file_run filepath title w :
  exists new : list event,
    trace (send_file E filepath title w).2 = trace w ++ new
    /\ Forall (fun e => transport_event e = true) new.
Proof.
  unfold send_file, bind, stat_size, try_except.
  destruct (disk w !! filepath) as [sz|].
  2:{ exists []. by rewrite app_nil_r. }
  rewrite call_run. destruct (send_chat_action E w UPLOAD_VIDEO).
  { exists [ChatAction UPLOAD_VIDEO]. split; [done|]. by repeat constructor. }
  destruct (gt_int (human_mb sz) TELEGRAM_LIMIT_MB).
  { rewrite call_run. exists [ChatAction UPLOAD_VIDEO; Answer TooLarge].
    cbn. rewrite <- app_assoc. split; [done|]. by repeat constructor. }
  destruct (le_int (human_mb sz) SEND_AS_VIDEO_THRESHOLD_MB); rewrite call_run.
  - destruct (answer_video E _ _ _) as [e|].
    + destruct (is_Exception e).
      * rewrite call_run.
        exists [ChatAction UPLOAD_VIDEO; AnswerVideo filepath (caption_of title);
                Answer (SendingFailed e)].
        cbn. rewrite <- !app_assoc. split; [done|]. by repeat constructor.
      * exists [ChatAction UPLOAD_VIDEO; AnswerVideo filepath (caption_of title)].
        cbn. rewrite <- !app_assoc. split; [done|]. by repeat constructor.
    + exists [ChatAction UPLOAD_VIDEO; AnswerVideo filepath (caption_of title)].
      cbn. rewrite <- !app_assoc. split; [done|]. by repeat constructor.
  - destruct (answer_document E _ _ _) as [e|].
    + destruct (is_Exception e).
      * rewrite call_run.
        exists [ChatAction UPLOAD_VIDEO; AnswerDocument filepath (caption_of title);
                Answer (SendingFailed e)].
        cbn. rewrite <- !app_assoc. split; [done|]. by repeat constructor.
      * exists [ChatAction UPLOAD_VIDEO; AnswerDocument filepath (caption_of title)].
        cbn. rewrite <- !app_assoc. split; [done|]. by repeat constructor.
    + exists [ChatAction UPLOAD_VIDEO; AnswerDocument filepath (caption_of title)].
      cbn. rewrite <- !app_assoc. split; [done|]. by repeat constructor.
Qed.

Lemma _extract_run url opts w :
  trace (_extract E url opts w).2 = trace w ++ [ExtractInfo url opts].
Proof.
  unfold _extract. by repeat case_match.
Qed.

End Stages.

(** ** The try block of a job *)

Section Job.
Variable E : Env.

Lemma deliver_run filepath title w :
  exists post : list event,
    trace ((do _ <- call (EditText Uploading) (fun w => edit_text E w Uploading);
            send_file E filepath title) w).2 = trace w ++ post
    /\ Forall (fun e => transport_event e = true) post.
Proof.
  unfold bind. rewrite call_run. destruct (edit_text E w Uploading).
  { exists [EditText Uploading]. split; [done|]. by repeat constructor. }
  destruct (send_file_run E filepath title (log_event (EditText Uploading) w))
    as (new & Htr & Hnew).
  exists (EditText Uploading :: new). rewrite Htr. cbn.
  rewrite <- app_assoc. split; [done|]. by constructor.
Qed.

Lemma pipeline_run url opts w res w' :
  pipeline E url opts w = (res, w') ->
  exists pre S post : list event,
    trace w' = trace w ++ pre ++ S ++ post
    /\ Forall (body_event url opts) pre /\ transcodes pre = []
    /\ Forall (fun e => transport_event e = true) post
    /\ (S = []
        \/ exists current r,
             ladder attempts current r S
             /\ forall e, r = Raise e -> post = [] /\ res = Raise e).
Proof.
  unfold pipeline. unfold bind at 1. rewrite call_run.
  destruct (send_chat_action E w RECORD_VIDEO).
  { intros [= <- <-]. exists [ChatAction RECORD_VIDEO], [], [].
    repeat split; auto. by repeat constructor. }
  set (w1 := log_event (ChatAction RECORD_VIDEO) w).
  unfold bind at 1. pose proof (_extract_run E url opts w1) as Hx.
  destruct (_extract E url opts w1) as [[[filepath title]|e] w2].
  2:{ intros [= <- <-]. exists [ChatAction RECORD_VIDEO; ExtractInfo url opts], [], [].
      cbn in *. rewrite Hx, <- app_assoc. repeat split; auto.
      by repeat constructor. }
  cbn [snd] in Hx.
  assert (Forall (body_event url opts) [ChatAction RECORD_VIDEO; ExtractInfo url opts])
    as Hpre by (by repeat constructor).
  assert (trace w2 = trace w ++ [ChatAction RECORD_VIDEO; ExtractInfo url opts]) as Hw2.
  { rewrite Hx. cbn. by rewrite <- app_assoc. }
  clearbody w1. clear Hx.
  unfold bind at 1, path_exists at 1.
  destruct (exists_on (disk w2) filepath).
  2:{ intros [= <- <-]. exists [ChatAction RECORD_VIDEO; ExtractInfo url opts], [], [].
      cbn in *. rewrite Hw2. repeat split; auto. }
  cbn [negb]. unfold bind at 1, stat_size at 1.
  destruct (disk w2 !! filepath) as [sz|].
  2:{ intros [= <- <-]. exists [ChatAction RECORD_VIDEO; ExtractInfo url opts], [], [].
      cbn in *. rewrite Hw2. repeat split; auto. }
  unfold bind at 1.
  destruct (gt_int (human_mb sz) SAFE_LIMIT_MB).
  - pose proof (shrink_until_ok_run E filepath w2) as Hs.
    destruct (shrink_until_ok E filepath w2) as [[p|e] w3]; cbn [fst snd] in Hs.
    + destruct (deliver_run p title w3) as (post & Htr & Hpost).
      intros Hres. rewrite Hres in Htr. cbn [snd] in Htr.
      destruct Hs as [->|(new & Hw3 & Hl)].
      * exists [ChatAction RECORD_VIDEO; ExtractInfo url opts], [], post.
        rewrite Htr, Hw2, <- app_assoc. repeat split; auto.
      * exists [ChatAction RECORD_VIDEO; ExtractInfo url opts], new, post.
        rewrite Htr, Hw3, Hw2, <- !app_assoc. repeat split; auto.
        right. by exists filepath, (Ok p).
    + intros [= <- <-]. destruct Hs as [->|(new & Hw3 & Hl)].
      * exists [ChatAction RECORD_VIDEO; ExtractInfo url opts], [], [].
        cbn [app]. rewrite Hw2. repeat split; auto.
      * exists [ChatAction RECORD_VIDEO; ExtractInfo url opts], new, [].
        rewrite Hw3, Hw2, app_nil_r, <- !app_assoc. repeat split; auto.
        right. exists filepath, (Raise e). split; [done|]. by intros ? [= <-].
  - unfold ret at 1.
    destruct (deliver_run filepath title w2) as (post & Htr & Hpost).
    intros Hres. rewrite Hres in Htr. cbn [snd] in Htr.
    exists [ChatAction RECORD_VIDEO; ExtractInfo url opts], [], post.
    rewrite Htr, Hw2, <- app_assoc. repeat split; auto.
Qed.

(** The [try] block with its handler: every event is one of the job's, and a
    transcode that failed is followed by the failure notice and nothing
    else. *)
Lemma try_block_run url opts w :
  exists body : list event,
    trace (try_except (pipeline E url opts)
             (fun e => call (EditText (DownloadFailed e))
                         (fun w => edit_text E w (DownloadFailed e))) w).2
      = trace w ++ body
    /\ Forall (body_event url opts) body
    /\ forall l1 i l2, body = l1 ++ Transcode i :: l2 -> succeeded i = false ->
         l2 = [EditText (DownloadFailed (RuntimeError "ffmpeg compress failed"))].
Proof.
  unfold try_except.
  destruct (pipeline E url opts w) as [res w1] eqn:Hp.
  destruct (pipeline_run url opts w _ _ Hp)
    as (pre & S & post & Htr & Hpre & Hpre' & Hpost & HS).
  destruct res as [[]|e]; cbn [fst snd] in *.
  - exists (pre ++ S ++ post). split; [done|]. split.
    + rewrite !Forall_app. repeat split; auto.
      * destruct HS as [->|(c & r & Hl & _)]; [constructor|].
        by eapply ladder_body_event.
      * by apply transport_body_event.
    + intros l1 i l2 Heq Hfail.
      apply transcode_split in Heq as (s1 & s2 & -> & -> & ->);
        auto using transport_no_transcode.
      destruct HS as [HS|(c & r & Hl & Hr)]; [by destruct s1|].
      destruct s2 as [|x s2].
      * pose proof (ladder_raise_after_failure _ _ _ _ Hl _ _ eq_refl Hfail) as ->.
        by destruct (Hr _ eq_refl) as [_ ?].
      * destruct (ladder_continues _ _ _ _ Hl _ _ _ eq_refl) as [? _]; [done|].
        congruence.
  - assert (exists tail : list event,
               trace (if is_Exception e
                      then call (EditText (DownloadFailed e))
                             (fun w => edit_text E w (DownloadFailed e)) w1
                      else (Raise e, w1)).2 = trace w1 ++ tail
               /\ Forall (fun e => transport_event e = true) tail
               /\ (e = RuntimeError "ffmpeg compress failed" ->
                   tail = [EditText (DownloadFailed e)]))
      as (tail & Htl & Htail & Hrt).
    { destruct (is_Exception e) eqn:He.
      - rewrite call_run.
        exists [EditText (DownloadFailed e)]. by repeat constructor.
      - exists []. rewrite app_nil_r. repeat split; auto. by intros ->. }
    exists (pre ++ S ++ post ++ tail). split.
    { rewrite Htl, Htr, <- !app_assoc. done. }
    split.
    + rewrite !Forall_app. repeat split; auto.
      * destruct HS as [->|(c & r & Hl & _)]; [constructor|].
        by eapply ladder_body_event.
      * by apply transport_body_event.
      * by apply transport_body_event.
    + intros l1 i l2 Heq Hfail.
      apply transcode_split in Heq as (s1 & s2 & -> & -> & ->); auto.
      2:{ apply transport_no_transcode. by apply Forall_app. }
      destruct HS as [HS|(c & r & Hl & Hr)]; [by destruct s1|].
      destruct s2 as [|x s2].
      * pose proof (ladder_raise_after_failure _ _ _ _ Hl _ _ eq_refl Hfail) as ->.
        destruct (Hr _ eq_refl) as [-> He]. injection He as ->.
        cbn [app]. by apply Hrt.
      * destruct (ladder_continues _ _ _ _ Hl _ _ _ eq_refl) as [? _]; [done|].
        congruence.
Qed.

End Job.

(** ** The permit pool *)

Section GateFacts.
Import Gate.

Lemma running_cons j l :
  length (filter (fun j => holding j = true) (j :: l))
  = (held j + length (filter (fun j => holding j = true) l))%nat.
Proof.
  rewrite filter_cons. unfold held. destruct (holding j); by case_decide.
Qed.

Lemma running_insert l : forall i j j',
  l !! i = Some j ->
  (length (filter (fun j => holding j = true) (<[i := j']> l)) + held j
   = length (filter (fun j => holding j = true) l) + held j')%nat.
Proof.
  induction l as [|x l IH]; intros [|i] j j' Hi; simplify_eq/=.
  - rewrite !running_cons. lia.
  - rewrite !running_cons. specialize (IH _ _ j' Hi). lia.
Qed.

Lemma job_ok_insert l i j :
  Forall job_ok l -> job_ok j -> Forall job_ok (<[i := j]> l).
Proof. intros Hl Hj. by apply Forall_insert. Qed.

Lemma permit_free_tail e l : permit_free (e :: l) -> permit_free l.
Proof. by inversion 1. Qed.

Lemma permit_free_acquire l : ~ permit_free (Acquire :: l).
Proof. inversion 1 as [|? ? [? _] _]. done. Qed.

Lemma permit_free_release l : ~ permit_free (Release :: l).
Proof. inversion 1 as [|? ? [_ ?] _]. done. Qed.

Lemma fire_ok i s : pool_ok s -> pool_ok (fire i s).
Proof.
  intros [Hv Hj]. unfold fire.
  destruct (jobs s !! i) as [[l h]|] eqn:Hi; [|done].
  pose proof (Forall_lookup_1 _ _ _ _ Hj Hi) as Hok.
  unfold job_ok in Hok. cbn [holding todo] in Hok.
  unfold pool_ok, running in *.
  destruct l as [|e l]; [done|].
  destruct e;
    try (split; cbn [value jobs];
         [ pose proof (running_insert _ _ _ (mkJob l h) Hi) as Hr;
           unfold held in Hr; cbn [holding] in Hr; destruct h; lia
         | apply job_ok_insert; [done|]; unfold job_ok; cbn [holding todo];
           destruct h;
           [ destruct Hok as (mid & Hmid & Hfree);
             destruct mid as [|x mid]; simplify_eq/=;
             exists mid; split; [done|by eapply permit_free_tail]
           | destruct Hok as [Hfree|(mid & ? & _)]; [|done];
             left; by eapply permit_free_tail ] ]).
  - (* Acquire *)
    destruct h.
    { destruct Hok as (mid & Hmid & Hfree).
      destruct mid as [|x mid]; simplify_eq/=.
      exfalso; by eapply permit_free_acquire. }
    destruct Hok as [Hfree|(mid & Hmid & Hfree)].
    { exfalso; by eapply permit_free_acquire. }
    simplify_eq. destruct (value s) as [|v] eqn:Hval.
    { split; [|done]. by rewrite Hval. }
    split; cbn [value jobs].
    + pose proof (running_insert _ _ _ (mkJob (mid ++ [Release]) true) Hi) as Hr.
      unfold held in Hr. cbn [holding] in Hr. lia.
    + apply job_ok_insert; [done|]. unfold job_ok. cbn [holding todo]. eauto.
  - (* Release *)
    destruct h.
    2:{ destruct Hok as [Hfree|(mid & ? & _)]; [|done].
        exfalso; by eapply permit_free_release. }
    destruct Hok as (mid & Hmid & Hfree).
    destruct mid as [|x mid]; simplify_eq/=.
    2:{ exfalso; by eapply permit_free_release. }
    split; cbn [value jobs].
    + pose proof (running_insert _ _ _ (mkJob [] false) Hi) as Hr.
      unfold held in Hr. cbn [holding] in Hr. lia.
    + apply job_ok_insert; [done|]. unfold job_ok. cbn [holding todo].
      left. constructor.
Qed.

Lemma run_ok schedule : forall s, pool_ok s -> pool_ok (run schedule s).
Proof.
  induction schedule as [|i schedule IH]; intros s Hs; [done|].
  apply IH. by apply fire_ok.
Qed.

Lemma init_ok runs : Forall bracketed runs -> pool_ok (init runs).
Proof.
  intros Hruns. unfold pool_ok, init, running. cbn [value jobs]. split.
  - induction runs as [|l runs IH]; [done|].
    cbn [map]. rewrite running_cons. cbn [held holding].
    apply Forall_cons in Hruns as [_ Hruns]. specialize (IH Hruns). lia.
  - induction Hruns; constructor; auto.
Qed.

(** With no unit left, firing a job lets no job into the span. *)
Lemma fire_locked i s k j' :
  pool_ok s -> value s = 0%nat ->
  jobs (fire i s) !! k = Some j' -> holding j' = true ->
  exists j, jobs s !! k = Some j /\ holding j = true.
Proof.
  intros [_ Hj] Hv. unfold fire.
  destruct (jobs s !! i) as [[l h]|] eqn:Hi; [|eauto].
  pose proof (Forall_lookup_1 _ _ _ _ Hj Hi) as Hok.
  unfold job_ok in Hok. cbn [holding todo] in Hok.
  destruct l as [|e l]; [eauto|].
  assert (forall l', jobs s !! i = Some (mkJob (e :: l) h) ->
            <[i := mkJob l' h]> (jobs s) !! k = Some j' -> holding j' = true ->
            exists j, jobs s !! k = Some j /\ holding j = true) as Hsame.
  { intros l' _ Hk Hh. destruct (decide (i = k)) as [->|Hne].
    - rewrite list_lookup_insert_eq in Hk by (by eapply lookup_lt_Some).
      simplify_eq/=. eauto.
    - rewrite list_lookup_insert_ne in Hk by done. eauto. }
  destruct e; cbn [jobs]; try (by apply Hsame).
  - rewrite Hv. eauto.
  - intros Hk Hh. destruct (decide (i = k)) as [->|Hne].
    + rewrite list_lookup_insert_eq in Hk by (by eapply lookup_lt_Some).
      by simplify_eq/=.
    + rewrite list_lookup_insert_ne in Hk by done. eauto.
Qed.

End GateFacts.

(** ** The runs of a job *)

Section Handler.
Variable E : Env.

Lemma rmtree_inside td d p : inside td p = true -> rmtree td d !! p = None.
Proof.
  intros Hin. unfold rmtree. apply map_lookup_filter_None. right.
  intros x _. cbn. congruence.
Qed.

Lemma handle_url_rejects message w :
  is_supported_url (Str.strip (Str.or_else (msg_text message) "")) = false ->
  handle_url E message w
  = (match answer E w RejectLink with None => Ok tt | Some x => Raise x end,
     log_event (Answer RejectLink) w).
Proof. intros H. unfold handle_url. rewrite H. cbn [negb]. apply call_run. Qed.

(** A job that passed the URL check: it takes a permit and answers; then
    either nothing more happens before the release, or a scratch directory
    is made, the [try] block runs, and the directory is removed. *)
Lemma handle_url_run message w url r w' :
  url = Str.strip (Str.or_else (msg_text message) "") ->
  is_supported_url url = true ->
  handle_url E message w = (r, w') ->
  exists mid : list event,
    trace w'
    = trace w ++ Acquire :: Answer (Downloading (platform_name url)) :: mid ++ [Release]
    /\ (mid = []
        \/ exists td body,
             mid = MkDtemp td :: body ++ [Cleanup td]
             /\ (forall p, inside td p = true -> disk w' !! p = None)
             /\ Forall (body_event url
                          (build_ydl_opts (IG_COOKIES_PATH (environ_IG_COOKIES_PATH E))
                             td (String.eqb (platform_name url) "Instagram")
                             MAX_HEIGHT_TARGET)) body
             /\ forall l1 i l2, body = l1 ++ Transcode i :: l2 -> succeeded i = false ->
                  l2 = [EditText (DownloadFailed (RuntimeError "ffmpeg compress failed"))]).
Proof.
  intros -> Hsup. unfold handle_url. rewrite Hsup. cbn [negb].
  set (url := Str.strip _) in *.
  unfold with_permit, finally. unfold bind at 1. rewrite call_run.
  destruct (answer E _ _).
  { intros [= <- <-]. exists []. split; [|by left]. cbn. by rewrite <- !app_assoc. }
  unfold with_tempdir.
  destruct (mkdtemp E _) as [e|[td d]].
  { intros [= <- <-]. exists []. split; [|by left]. cbn. by rewrite <- !app_assoc. }
  unfold finally.
  match goal with |- context [try_except ?b ?h ?w0] =>
    set (w2 := w0);
    destruct (try_block_run E url
                (build_ydl_opts (IG_COOKIES_PATH (environ_IG_COOKIES_PATH E))
                   td (String.eqb (platform_name url) "Instagram") MAX_HEIGHT_TARGET) w2)
      as (body & Htr & Hbody & Hfail);
    destruct (try_except b h w2) as [r3 w3]
  end.
  cbn [snd] in Htr. intros [= <- <-].
  exists (MkDtemp td :: body ++ [Cleanup td]). split.
  - cbn [snd trace log_event]. rewrite Htr. subst w2. cbn [trace log_event].
    rewrite <- !app_assoc. cbn [app]. by rewrite <- !app_assoc.
  - right. exists td, body. split; [done|]. split; [|done].
    intros p Hp. cbn [snd disk log_event]. by apply rmtree_inside.
Qed.

End Handler.

Lemma supported_or_not E message w r w' (new : list event) :
  handle_url E message w = (r, w') ->
  trace w' = trace w ++ new ->
  new = [Answer RejectLink]
  \/ exists mid,
       new = Acquire :: mid ++ [Release]
       /\ (mid = [Answer (Downloading (platform_name
                    (Str.strip (Str.or_else (msg_text message) ""))))]
           \/ exists td body,
                mid = Answer (Downloading (platform_name
                        (Str.strip (Str.or_else (msg_text message) ""))))
                      :: MkDtemp td :: body ++ [Cleanup td]
                /\ (forall p, inside td p = true -> disk w' !! p = None)
                /\ Forall (body_event (Str.strip (Str.or_else (msg_text message) ""))
                             (build_ydl_opts (IG_COOKIES_PATH (environ_IG_COOKIES_PATH E))
                                td
                                (String.eqb
                                   (platform_name
                                      (Str.strip (Str.or_else (msg_text message) "")))
                                   "Instagram")
                                MAX_HEIGHT_TARGET)) body
                /\ forall l1 i l2, body = l1 ++ Transcode i :: l2 ->
                     succeeded i = false ->
                     l2 = [EditText (DownloadFailed
                                       (RuntimeError "ffmpeg compress failed"))]).
Proof.
  intros Hrun Htr.
  destruct (is_supported_url (Str.strip (Str.or_else (msg_text message) ""))) eqn:Hsup.
  - right.
    destruct (handle_url_run E message w _ r w' eq_refl Hsup Hrun)
      as (mid & Htr' & Hmid).
    rewrite Htr' in Htr. apply app_inv_head in Htr. subst new.
    destruct Hmid as [->|(td & body & -> & Hdisk & Hbody & Hfail)].
    + exists [Answer (Downloading (platform_name
                (Str.strip (Str.or_else (msg_text message) ""))))].
      split; [reflexivity|]. by left.
    + exists (Answer (Downloading (platform_name
                (Str.strip (Str.or_else (msg_text message) ""))))
              :: MkDtemp td :: body ++ [Cleanup td]).
      split; [reflexivity|]. right. by exists td, body.
  - left. rewrite (handle_url_rejects _ _ _ Hsup) in Hrun. injection Hrun as _ <-.
    cbn in Htr. by apply app_inv_head in Htr.
Qed.

Lemma handle_url_bracketed E message w r w' (new : list event) :
  handle_url E message w = (r, w') ->
  trace w' = trace w ++ new ->
  new = [Answer RejectLink]
  \/ exists mid, new = Acquire :: mid ++ [Release] /\ permit_free mid.
Proof.
  intros Hrun Htr.
  destruct (supported_or_not E message w r w' _ Hrun Htr)
    as [->|(mid & -> & [->|(td & body & -> & _ & Hbody & _)])]; [by left|right..].
  - eexists. split; [reflexivity|]. by repeat constructor.
  - eexists. split; [reflexivity|]. unfold permit_free.
    repeat (constructor; [done|]). apply Forall_app. split.
    + eapply Forall_impl; [exact Hbody|]. by intros [].
    + by repeat constructor.
Qed.

(** * The claims of the specification *)

(** ** Worked examples *)

Example ex_supported_watch :
  is_supported_url "https://www.YouTube.com/watch?v=abc" = true.
Proof. vm_compute. reflexivity. Qed.
Example ex_supported_short : platform_name "see youtu.be/xyz" = "YouTube".
Proof. vm_compute. reflexivity. Qed.
Example ex_supported_reel :
  platform_name "http://instagram.com/Reel/1/" = "Instagram".
Proof. vm_compute. reflexivity. Qed.
Example ex_unsupported : platform_name "https://instagram.com/stories/1/" = "Unknown".
Proof. vm_compute. reflexivity. Qed.
Example ex_strip : Str.strip "  a b  " = "a b".
Proof. vm_compute. reflexivity. Qed.

Example ex_with_suffix :
  Pathlib.with_suffix "/tmp/ab/My.Video.mp4" ".480p.crf28.mp4"
  = Some "/tmp/ab/My.Video.480p.crf28.mp4".
Proof. vm_compute. reflexivity. Qed.
Example ex_with_suffix_hidden : Pathlib.with_suffix "/tmp/ab/.hidden" ".x" = Some "/tmp/ab/.hidden.x".
Proof. vm_compute. reflexivity. Qed.
Example ex_with_suffix_empty_name : Pathlib.with_suffix "/tmp/ab/" ".x" = None.
Proof. vm_compute. reflexivity. Qed.
Example ex_with_suffix_cwd : Pathlib.with_suffix "." ".mp4" = None.
Proof. vm_compute. reflexivity. Qed.
Example ex_human_mb_rounds_down : human_mb (1900 * MB + 1) = (190000 # 100)%Q.
Proof. vm_compute. reflexivity. Qed.
Example ex_human_mb_rounds_up : human_mb 1992299643 = (190001 # 100)%Q.
Proof. vm_compute. reflexivity. Qed.
Example ex_format_chain :
  build_ydl_opts "" "/tmp/x" false 480 !! "format"
  = Some (PStr "bv*[height<=480][ext=mp4]+ba[ext=m4a]/b[height<=480][ext=mp4]/best[ext=mp4]/best").
Proof. vm_compute. reflexivity. Qed.

(** ** The shrink ladder *)

(** C2.  An artifact of at most 1900 MB comes back as it is: the result is the
    input path and the world is the one the ladder was called in, so no
    transcode was invoked. *)
Theorem shrink_small_identity E (w : World) (filepath : string) (sz : Z) :
  disk w !! filepath = Some sz ->
  sz <= SAFE_LIMIT_MB * MB ->
  shrink_until_ok E filepath w = (Ok filepath, w).
Proof.
  intros Hsz Hle. apply (shrink_until_ok_small E _ _ sz Hsz).
  apply le_int_human_mb. unfold SAFE_LIMIT_MB, MB in *. lia.
Qed.

Lemma shrink_small_identity_witness :
  shrink_until_ok (Sample.env 0 (Sample.engine 0 (Some (100 * MB)))) Sample.clip
    (Sample.world_with Sample.clip (1900 * MB))
  = (Ok Sample.clip, Sample.world_with Sample.clip (1900 * MB)).
Proof.
  apply (shrink_small_identity _ _ _ (1900 * MB)).
  - vm_compute. reflexivity.
  - vm_compute. discriminate.
Defined.

(** C1, as the specification states it, fails: an artifact one byte above
    1900 MB measures 1900.00 MB, and the ladder returns it without invoking
    the transcoder. *)
Lemma shrink_ladder_order_counterexample :
  let E := Sample.env 0 (Sample.engine 0 (Some (100 * MB))) in
  let w := Sample.world_with Sample.clip (1900 * MB + 1) in
  disk w !! Sample.clip = Some (1900 * MB + 1)
  /\ SAFE_LIMIT_MB * MB < 1900 * MB + 1
  /\ shrink_until_ok E Sample.clip w = (Ok Sample.clip, w)
  /\ transcodes (trace (shrink_until_ok E Sample.clip w).2) = [].
Proof. vm_compute. repeat split; reflexivity. Qed.

(** C1, amended.  When the size of the artifact, in MB rounded to two
    decimals as [human_mb] measures it, is above 1900, the transcodes the
    ladder invokes are the entries (480, 28), (480, 30), (360, 28), (360, 30)
    from the first on and in this order, each reading the product of the one
    before; nothing follows an attempt whose product measures 1900 or less;
    and a ladder that returns returns the product of its last attempt, which
    measures 1900 or less unless all four entries were tried.  This holds
    whatever the collaborators do.  When moreover the status edits return and
    the path of the artifact has a final component, the ladder does invoke the
    transcoder: its events are one or more attempts, each announced by its
    status edit; every attempt but the last succeeded with a product above the
    limit, so the ladder goes on after each such product; and the last attempt
    either failed, and the ladder raises, or fits, and the ladder returns its
    product, or is the fourth, and the ladder returns its product though it is
    too large. *)
Theorem shrink_ladder_order E (w : World) (filepath : string) (sz : Z)
    (r : Res string) (w' : World) :
  disk w !! filepath = Some sz ->
  gt_int (human_mb sz) SAFE_LIMIT_MB = true ->
  shrink_until_ok E filepath w = (r, w') ->
  exists new : list event,
    trace w' = trace w ++ new
    /\ map params (transcodes new) `prefix_of` [(480, 28); (480, 30); (360, 28); (360, 30)]
    /\ chained filepath (transcodes new)
    /\ (forall l1 i l2, new = l1 ++ Transcode i :: l2 -> fits i = true -> l2 = [])
    /\ (forall p, r = Ok p ->
          exists l i, transcodes new = l ++ [i] /\ p = dst i
            /\ (fits i = true \/ length (transcodes new) = 4%nat))
    /\ ((forall w0 h c, edit_text E w0 (Compressing h c) = None) ->
        Pathlib.name filepath <> "" ->
        exists (calls : list invocation) (i : invocation),
          new = announced (calls ++ [i])
          /\ transcodes new = calls ++ [i]
          /\ Forall (fun j => succeeded j = true /\ fits j = false) calls
          /\ ((succeeded i = false
               /\ r = Raise (RuntimeError "ffmpeg compress failed"))
              \/ (fits i = true /\ r = Ok (dst i))
              \/ (succeeded i = true /\ fits i = false
                  /\ length calls = 3%nat /\ r = Ok (dst i)))).
Proof.
  intros Hsz Hgt Hrun. unfold gt_int in Hgt. apply negb_true_iff in Hgt.
  rewrite (shrink_until_ok_large E _ _ sz Hsz Hgt) in Hrun.
  destruct (shrink_loop_ladder E attempts filepath w) as (new & Htr & Hl).
  rewrite Hrun in Htr, Hl. cbn [fst snd] in Htr, Hl.
  exists new. split; [done|]. split; [by apply (ladder_params _ _ _ _ Hl)|].
  split; [by eapply ladder_chained|]. split; [|split].
  - intros l1 i l2 -> Hfit. destruct l2 as [|e l2]; [done|].
    destruct (ladder_continues _ _ _ _ Hl l1 i (e :: l2) eq_refl) as [_ ?]; [done|].
    congruence.
  - intros p ->.
    destruct (ladder_returns _ _ _ _ p Hl eq_refl)
      as [(? & _)|(l & i & ? & ? & _ & ?)]; [done|eauto].
  - intros Hedit Hname.
    destruct (shrink_loop_attempts E attempts filepath w r w' candidate_suffix_valid
                Hedit Hname ltac:(done) Hrun)
      as (calls & i & Htr' & Hcalls & Hlast).
    rewrite Htr in Htr'. apply app_inv_head in Htr'.
    exists calls, i. split; [done|].
    split; [rewrite Htr'; apply transcodes_announced|]. split; [done|].
    destruct Hlast as [?|[?|(? & ? & Hlen & ?)]]; [by left|by right; left|].
    right. right. split_and!; try done.
    rewrite length_app in Hlen. cbn in Hlen. lia.
Qed.

Lemma shrink_ladder_order_witness :
  let E := Sample.env 0 (Sample.engine 0 (Some (100 * MB))) in
  let w := Sample.world_with Sample.clip (2500 * MB) in
  let run := shrink_until_ok E Sample.clip w in
  exists (calls : list invocation) (i : invocation),
    trace run.2 = trace w ++ announced (calls ++ [i])
    /\ map params (calls ++ [i]) `prefix_of` [(480, 28); (480, 30); (360, 28); (360, 30)]
    /\ chained Sample.clip (calls ++ [i])
    /\ Forall (fun j => succeeded j = true /\ fits j = false) calls
    /\ ((succeeded i = false
         /\ run.1 = Raise (RuntimeError "ffmpeg compress failed"))
        \/ (fits i = true /\ run.1 = Ok (dst i))
        \/ (succeeded i = true /\ fits i = false
            /\ length calls = 3%nat /\ run.1 = Ok (dst i))).
Proof.
  intros E w run.
  destruct (shrink_ladder_order E w Sample.clip (2500 * MB) run.1 run.2)
    as (new & Htr & Hparams & Hchain & _ & _ & Hgo).
  - vm_compute. reflexivity.
  - vm_compute. reflexivity.
  - vm_compute. reflexivity.
  - destruct Hgo as (calls & i & Hnew & Hcalled & Hcalls & Hlast).
    + intros w0 h c. reflexivity.
    + vm_compute. discriminate.
    + exists calls, i. rewrite Hcalled in Hparams, Hchain. rewrite Hnew in Htr.
      split; [exact Htr|]. split; [exact Hparams|]. split; [exact Hchain|].
      split; [exact Hcalls|exact Hlast].
Defined.

(** C3.  In a run of the ladder that made the four attempts, each of which
    succeeded and left an artifact above 1900 MB, the ladder returns the
    artifact of the fourth attempt; its path is neither the input path nor
    the path of an earlier attempt, and the attempts are the four entries of
    the ladder. *)
Theorem shrink_ladder_exhausted E (w : World) (filepath : string)
    (r : Res string) (w' : World) (new : list event) (i1 i2 i3 i4 : invocation) :
  shrink_until_ok E filepath w = (r, w') ->
  trace w' = trace w ++ new ->
  transcodes new = [i1; i2; i3; i4] ->
  Forall (fun i => succeeded i = true
                   /\ exists n, produced i = Some n /\ SAFE_LIMIT_MB * MB < n)
         [i1; i2; i3; i4] ->
  r = Ok (dst i4)
  /\ dst i4 <> filepath /\ dst i4 <> dst i1 /\ dst i4 <> dst i2 /\ dst i4 <> dst i3
  /\ map params [i1; i2; i3; i4] = [(480, 28); (480, 30); (360, 28); (360, 30)].
Proof.
  intros Hrun Htr Hcalls Hall.
  pose proof (shrink_until_ok_run E filepath w) as Hs.
  rewrite Hrun in Hs. cbn [fst snd] in Hs.
  destruct Hs as [->|(new' & Htr' & Hl)].
  { rewrite <- (app_nil_r (trace w)) in Htr at 1.
    apply app_inv_head in Htr. by subst new. }
  rewrite Htr' in Htr. apply app_inv_head in Htr. subst new'.
  apply Forall_cons in Hall as [_ Hall]. apply Forall_cons in Hall as [_ Hall].
  apply Forall_cons in Hall as [_ Hall]. apply Forall_cons in Hall as [[Hok4 _] _].
  split.
  { apply (ladder_full _ _ _ _ Hl) with (l := [i1; i2; i3]); [|done|done].
    by rewrite Hcalls. }
  pose proof (ladder_chained _ _ _ _ Hl) as Hch. rewrite Hcalls in Hch.
  destruct Hch as (_ & H1 & E2 & H2 & E3 & H3 & E4 & H4 & _).
  apply with_suffix_dots in H1, H2, H3, H4.
  pose proof (ladder_params _ _ _ _ Hl) as [k Hk]. rewrite Hcalls in Hk.
  repeat split; try (intros Heq; rewrite Heq in *; lia).
  apply (f_equal (take 4)) in Hk. exact (eq_sym Hk).
Qed.

Lemma shrink_ladder_exhausted_witness :
  (shrink_until_ok (Sample.env 0 (Sample.engine 0 (Some (3000 * MB)))) Sample.clip
     (Sample.world_with Sample.clip (2500 * MB))).1
  = Ok "/tmp/job/clip.480p.crf28.480p.crf30.360p.crf28.360p.crf30.mp4".
Proof.
  set (E := Sample.env 0 (Sample.engine 0 (Some (3000 * MB)))).
  set (w := Sample.world_with Sample.clip (2500 * MB)).
  set (c1 := "/tmp/job/clip.480p.crf28.mp4").
  set (c2 := "/tmp/job/clip.480p.crf28.480p.crf30.mp4").
  set (c3 := "/tmp/job/clip.480p.crf28.480p.crf30.360p.crf28.mp4").
  set (c4 := "/tmp/job/clip.480p.crf28.480p.crf30.360p.crf28.360p.crf30.mp4").
  apply (shrink_ladder_exhausted E w Sample.clip
           (shrink_until_ok E Sample.clip w).1 (shrink_until_ok E Sample.clip w).2
           (trace (shrink_until_ok E Sample.clip w).2)
           (mkInvocation Sample.clip c1 480 28 0 (Some (3000 * MB)))
           (mkInvocation c1 c2 480 30 0 (Some (3000 * MB)))
           (mkInvocation c2 c3 360 28 0 (Some (3000 * MB)))
           (mkInvocation c3 c4 360 30 0 (Some (3000 * MB)))).
  - vm_compute. reflexivity.
  - vm_compute. reflexivity.
  - vm_compute. reflexivity.
  - repeat constructor; try (vm_compute; reflexivity);
      exists (3000 * MB); split; vm_compute; reflexivity.
Defined.

(** ** Transcode failures *)

(** C4.  [ffmpeg_compress] raises exactly when the engine exits with a
    non-zero status or the destination does not exist afterwards.  In the
    ladder a failed transcode is the last event and the ladder raises the
    error of the transcoder; in a job it is followed by the failure notice,
    the removal of the scratch directory and the release of the permit, and
    by nothing else: no further entry is tried and nothing is delivered. *)
Theorem transcode_failure_aborts E :
  (forall s d h c w,
     (exists e, (ffmpeg_compress E s d h c w).1 = Raise e)
     <-> ((run_ffmpeg E w (ffmpeg_cmd s d h c)).1 <> 0
          \/ (run_ffmpeg E w (ffmpeg_cmd s d h c)).2 !! d = None))
  /\ (forall filepath w r w' (new l1 : list event) i l2,
        shrink_until_ok E filepath w = (r, w') ->
        trace w' = trace w ++ new ->
        new = l1 ++ Transcode i :: l2 -> succeeded i = false ->
        l2 = [] /\ r = Raise (RuntimeError "ffmpeg compress failed"))
  /\ (forall message w r w' (new l1 : list event) i l2,
        handle_url E message w = (r, w') ->
        trace w' = trace w ++ new ->
        new = l1 ++ Transcode i :: l2 -> succeeded i = false ->
        exists td,
          l2 = [EditText (DownloadFailed (RuntimeError "ffmpeg compress failed"));
                Cleanup td; Release]).
Proof.
  split; [|split].
  - intros s d h c w. unfold ffmpeg_compress, exists_on.
    destruct (run_ffmpeg E w (ffmpeg_cmd s d h c)) as [rc dk]. cbn [fst snd].
    destruct (Z.eqb_spec rc 0) as [->|Hrc]; cbn [negb orb].
    + destruct (dk !! d); cbn; split.
      * intros [? [=]].
      * intros [?|?]; done.
      * auto.
      * eauto.
    + split; eauto.
  - intros filepath w r w' new l1 i l2 Hrun Htr -> Hfail.
    pose proof (shrink_until_ok_run E filepath w) as Hs.
    rewrite Hrun in Hs. cbn [fst snd] in Hs.
    destruct Hs as [->|(new' & Htr' & Hl)].
    { rewrite <- (app_nil_r (trace w)) in Htr at 1.
      apply app_inv_head in Htr. by destruct l1. }
    rewrite Htr' in Htr. apply app_inv_head in Htr. subst new'.
    destruct l2 as [|e l2].
    + split; [done|]. by eapply ladder_raise_after_failure.
    + destruct (ladder_continues _ _ _ _ Hl l1 i (e :: l2) eq_refl) as [? _]; [done|].
      congruence.
  - intros message w r w' new l1 i l2 Hrun Htr -> Hfail.
    destruct (supported_or_not E message w r w' _ Hrun Htr)
      as [Heq|(mid & Heq & [->|(td & body & -> & _ & _ & Hbody)])].
    + destruct l1 as [|? [|? ?]]; by simplify_eq/=.
    + destruct l1 as [|? [|? [|? [|? ?]]]]; by simplify_eq/=.
    + exists td.
      assert (l1 ++ Transcode i :: l2
              = [Acquire; Answer (Downloading (platform_name
                   (Str.strip (Str.or_else (msg_text message) "")))); MkDtemp td]
                ++ body ++ [Cleanup td; Release]) as Heq'.
      { rewrite Heq. cbn. by rewrite <- !app_assoc. }
      symmetry in Heq'.
      apply transcode_split in Heq' as (s1 & s2 & -> & _ & ->); [|done|done].
      by rewrite (Hbody _ _ _ eq_refl Hfail).
Qed.

Lemma transcode_failure_aborts_witness :
  exists td,
    [EditText (DownloadFailed (RuntimeError "ffmpeg compress failed"));
     Cleanup "/tmp/job"; Release]
    = [EditText (DownloadFailed (RuntimeError "ffmpeg compress failed"));
       Cleanup td; Release].
Proof.
  set (E := Sample.env (2500 * MB) (Sample.engine 1 None)).
  set (m := mkMessage (Some "https://youtu.be/abc")).
  set (run := handle_url E m Sample.empty_world).
  apply (proj2 (proj2 (transcode_failure_aborts E)) m Sample.empty_world
           run.1 run.2 (trace run.2)
           [Acquire; Answer (Downloading "YouTube"); MkDtemp "/tmp/job";
            ChatAction RECORD_VIDEO;
            ExtractInfo "https://youtu.be/abc"
              (build_ydl_opts "" "/tmp/job" false MAX_HEIGHT_TARGET);
            EditText (Compressing 480 28)]
           (mkInvocation Sample.clip "/tmp/job/clip.480p.crf28.mp4" 480 28 1 None)).
  - vm_compute. reflexivity.
  - vm_compute. reflexivity.
  - vm_compute. reflexivity.
  - vm_compute. reflexivity.
Defined.

(** ** Delivery *)

(** C5, as the specification states it, fails at both limits: an artifact one
    byte above 2000 MB measures 2000.00 MB and is uploaded as a document, and
    an artifact one byte above 50 MB measures 50.00 MB and is uploaded as a
    video. *)
Lemma delivery_outcomes_counterexample :
  let E := Sample.env 0 (Sample.engine 0 None) in
  (TELEGRAM_LIMIT_MB * MB < 2000 * MB + 1
   /\ trace (send_file E Sample.clip "clip"
               (Sample.world_with Sample.clip (2000 * MB + 1))).2
      = [ChatAction UPLOAD_VIDEO; AnswerDocument Sample.clip "<b>clip</b>"])
  /\ (SEND_AS_VIDEO_THRESHOLD_MB * MB < 50 * MB + 1 < TELEGRAM_LIMIT_MB * MB
      /\ trace (send_file E Sample.clip "clip"
                  (Sample.world_with Sample.clip (50 * MB + 1))).2
         = [ChatAction UPLOAD_VIDEO; AnswerVideo Sample.clip "<b>clip</b>"]).
Proof. vm_compute. repeat split; reflexivity. Qed.

(** C5, amended.  Once the upload action is announced, [send_file] does one of
    three things, by the size in MB rounded to two decimals as [human_mb]
    measures it: above 2000 it answers that the file is too large and uploads
    nothing; at or below 50 it uploads the file as a video; otherwise it
    uploads it as a document.  The caption of either upload is the one derived
    from the title, and the only event that can follow an upload is the notice
    that it failed. *)
Theorem delivery_outcomes E (w : World) (filepath title : string) (sz : Z)
    (r : Res unit) (w' : World) :
  disk w !! filepath = Some sz ->
  send_chat_action E w UPLOAD_VIDEO = None ->
  send_file E filepath title w = (r, w') ->
  exists tail : list event,
    trace w' = trace w ++ ChatAction UPLOAD_VIDEO :: tail
    /\ disk w' = disk w
    /\ if gt_int (human_mb sz) TELEGRAM_LIMIT_MB then
         tail = [Answer TooLarge]
       else
         exists notice : list event,
           tail = (if le_int (human_mb sz) SEND_AS_VIDEO_THRESHOLD_MB
                   then AnswerVideo filepath (caption_of title)
                   else AnswerDocument filepath (caption_of title)) :: notice
           /\ (notice = [] \/ exists e, notice = [Answer (SendingFailed e)]).
Proof.
  intros Hsz Hchat. unfold send_file, bind, stat_size, try_except.
  rewrite Hsz, call_run, Hchat.
  destruct (gt_int (human_mb sz) TELEGRAM_LIMIT_MB).
  { rewrite call_run. intros [= <- <-]. exists [Answer TooLarge].
    cbn. by rewrite <- app_assoc. }
  destruct (le_int (human_mb sz) SEND_AS_VIDEO_THRESHOLD_MB); rewrite call_run.
  - destruct (answer_video E _ _ _) as [e|].
    + destruct (is_Exception e).
      * rewrite call_run. intros [= <- <-]. eexists. cbn.
        rewrite <- !app_assoc. split; [reflexivity|]. split; [done|]. eauto.
      * intros [= <- <-]. eexists. cbn.
        rewrite <- !app_assoc. split; [reflexivity|]. split; [done|]. eauto.
    + intros [= <- <-]. eexists. cbn.
      rewrite <- !app_assoc. split; [reflexivity|]. split; [done|]. eauto.
  - destruct (answer_document E _ _ _) as [e|].
    + destruct (is_Exception e).
      * rewrite call_run. intros [= <- <-]. eexists. cbn.
        rewrite <- !app_assoc. split; [reflexivity|]. split; [done|]. eauto.
      * intros [= <- <-]. eexists. cbn.
        rewrite <- !app_assoc. split; [reflexivity|]. split; [done|]. eauto.
    + intros [= <- <-]. eexists. cbn.
      rewrite <- !app_assoc. split; [reflexivity|]. split; [done|]. eauto.
Qed.

Lemma delivery_outcomes_witness :
  let E := Sample.env 0 (Sample.engine 0 None) in
  let w := Sample.world_with Sample.clip (2500 * MB) in
  exists tail : list event,
    trace (send_file E Sample.clip "clip" w).2 = trace w ++ ChatAction UPLOAD_VIDEO :: tail
    /\ disk (send_file E Sample.clip "clip" w).2 = disk w
    /\ tail = [Answer TooLarge].
Proof.
  intros E w.
  apply (delivery_outcomes E w Sample.clip "clip" (2500 * MB)
           (send_file E Sample.clip "clip" w).1 (send_file E Sample.clip "clip" w).2).
  - vm_compute. reflexivity.
  - vm_compute. reflexivity.
  - vm_compute. reflexivity.
Defined.

(** ** Teardown *)

(** C6.  However a job ends, with [Ok] or with an exception, a scratch
    directory it made is gone when [handle_url] is left: the directory and
    every path below it are absent from the disk, and its removal is among the
    events of the job. *)
Theorem scratch_removed E (message : Message) (w : World) (r : Res unit)
    (w' : World) (new : list event) (td : string) :
  handle_url E message w = (r, w') ->
  trace w' = trace w ++ new ->
  In (MkDtemp td) new ->
  disk w' !! td = None
  /\ (forall name, disk w' !! Pathlib.joinpath td name = None)
  /\ (forall p, inside td p = true -> disk w' !! p = None)
  /\ In (Cleanup td) new.
Proof.
  intros Hrun Htr Hin.
  destruct (supported_or_not E message w r w' _ Hrun Htr)
    as [->|(mid & -> & [->|(td' & body & -> & Hdisk & Hbody & _)])].
  - cbn in Hin. by repeat destruct Hin as [?|Hin].
  - cbn in Hin. by repeat destruct Hin as [?|Hin].
  - assert (td' = td) as ->.
    { cbn in Hin. destruct Hin as [?|[?|[?|Hin]]]; try done; [by simplify_eq|].
      rewrite <- app_assoc in Hin. apply in_app_or in Hin as [Hin|Hin].
      - rewrite Forall_forall in Hbody. by apply list_elem_of_In, Hbody in Hin.
      - cbn in Hin. by repeat destruct Hin as [?|Hin]. }
    assert (forall s t, String.prefix s (s +:+ t) = true) as Hpre.
    { intros s t. induction s as [|c s IH]; [by destruct t|].
      change (String c s +:+ t) with (String c (s +:+ t)). cbn [String.prefix].
      by destruct (ascii_dec c c). }
    assert (forall a b c : string, a +:+ (b +:+ c) = (a +:+ b) +:+ c) as Hassoc.
    { intros a b c. induction a as [|x a IH]; [done|].
      change (String x (a +:+ (b +:+ c)) = String x ((a +:+ b) +:+ c)).
      by f_equal. }
    repeat split.
    + apply Hdisk. unfold inside. by rewrite bool_decide_eq_true_2.
    + intros name. apply Hdisk. unfold inside, Pathlib.joinpath.
      rewrite Hassoc. apply orb_true_iff. right. apply Hpre.
    + exact Hdisk.
    + cbn. right. right. right. rewrite <- app_assoc. apply in_or_app. right.
      by left.
Qed.

Lemma scratch_removed_witness :
  let run := handle_url (Sample.env (2500 * MB) (Sample.engine 1 None))
               (mkMessage (Some "https://youtu.be/abc")) Sample.empty_world in
  disk run.2 !! "/tmp/job" = None
  /\ (forall name, disk run.2 !! Pathlib.joinpath "/tmp/job" name = None)
  /\ (forall p, inside "/tmp/job" p = true -> disk run.2 !! p = None)
  /\ In (Cleanup "/tmp/job") (trace run.2).
Proof.
  intros run.
  apply (scratch_removed (Sample.env (2500 * MB) (Sample.engine 1 None))
           (mkMessage (Some "https://youtu.be/abc")) Sample.empty_world run.1 run.2).
  - vm_compute. reflexivity.
  - vm_compute. reflexivity.
  - vm_compute. right. right. left. reflexivity.
Defined.

(** ** Admission *)

(** C7.  The pool starts with two units.  A run of [handle_url] either only
    answers the rejection, or takes a unit before anything else and gives it
    back as its last event, whether it ends with [Ok] or with an exception.
    Whatever the schedule of such jobs, at most two are inside the span, the
    units left and the jobs inside add up to two, and while two jobs are
    inside no scheduling of any job lets another one in. *)
Theorem admission_gate :
  Gate.CONCURRENCY = 2%nat
  /\ (forall E message w r w' (new : list event),
        handle_url E message w = (r, w') ->
        trace w' = trace w ++ new ->
        new = [Answer RejectLink]
        \/ exists mid, new = Acquire :: mid ++ [Release] /\ permit_free mid)
  /\ (forall runs schedule,
        Forall bracketed runs ->
        let s := Gate.run schedule (Gate.init runs) in
        (Gate.running s <= 2)%nat
        /\ (Gate.value s + Gate.running s = 2)%nat
        /\ (Gate.running s = 2%nat ->
            forall i k j', Gate.jobs (Gate.fire i s) !! k = Some j' ->
              Gate.holding j' = true ->
              exists j, Gate.jobs s !! k = Some j /\ Gate.holding j = true)).
Proof.
  split; [done|]. split; [apply handle_url_bracketed|].
  intros runs schedule Hruns s.
  pose proof (run_ok schedule _ (init_ok runs Hruns)) as Hok.
  fold s in Hok. destruct (Hok) as [Hv _]. unfold Gate.CONCURRENCY in Hv.
  split; [lia|]. split; [done|].
  intros Hfull i k j'. apply fire_locked; [done|lia].
Qed.

Lemma admission_gate_witness :
  let job := [Acquire; Answer (Downloading "YouTube"); Release] in
  let s := Gate.run [0; 1; 2; 2; 0; 2]%nat (Gate.init [job; job; job]) in
  (Gate.running s <= 2)%nat /\ (Gate.value s + Gate.running s = 2)%nat.
Proof.
  intros job s.
  assert (bracketed job) as Hjob.
  { right. exists [Answer (Downloading "YouTube")].
    split; [reflexivity|]. apply Forall_cons_2; [|apply Forall_nil_2].
    split; discriminate. }
  assert (Forall bracketed [job; job; job]) as Hruns.
  { repeat (apply Forall_cons_2; [exact Hjob|]). apply Forall_nil_2. }
  destruct (proj2 (proj2 admission_gate) [job; job; job] [0; 1; 2; 2; 0; 2]%nat Hruns)
    as (H1 & H2 & _).
  split; [exact H1|exact H2].
Defined.


(** ** Rejection of other links *)

(** C8.  A message whose text matches neither pattern is answered with the
    rejection text and nothing else happens: the disk is untouched and the
    reply is the only event, so no permit is taken, nothing is extracted and no
    scratch directory is made. *)
Theorem unsupported_rejected E (message : Message) (w : World) :
  Re.search YOUTUBE_RE (Str.or_else (msg_text message) "") = false ->
  Re.search INSTAGRAM_RE (Str.or_else (msg_text message) "") = false ->
  handle_url E message w
  = (match answer E w RejectLink with None => Ok tt | Some x => Raise x end,
     mkWorld (disk w) (trace w ++ [Answer RejectLink])).
Proof.
  intros Hy Hi. apply handle_url_rejects. unfold is_supported_url.
  apply orb_false_iff. split; apply not_true_iff_false; intros H%search_strip;
    congruence.
Qed.

Lemma unsupported_rejected_witness :
  handle_url (Sample.env 0 (Sample.engine 0 None))
    (mkMessage (Some "https://example.com/watch")) Sample.empty_world
  = (Ok tt, mkWorld ∅ [Answer RejectLink]).
Proof.
  apply (unsupported_rejected (Sample.env 0 (Sample.engine 0 None))
           (mkMessage (Some "https://example.com/watch")) Sample.empty_world);
    vm_compute; reflexivity.
Defined.

(** ** Extraction options *)

(** C9.  The options hold the cookie file exactly when the job is an Instagram
    job and the configured path is not empty; they are built whatever the
    configuration, and every extraction a job makes is given the options so
    built, so a YouTube job never carries the cookie file. *)
Theorem cookies_attached_iff :
  (forall getenv tmp_dir from_instagram max_h,
     build_ydl_opts (IG_COOKIES_PATH getenv) tmp_dir from_instagram max_h !! "cookies"
     = if from_instagram && Str.truthy (IG_COOKIES_PATH getenv)
       then Some (PStr (IG_COOKIES_PATH getenv)) else None)
  /\ (forall E message w r w' (new : list event) url opts,
        handle_url E message w = (r, w') ->
        trace w' = trace w ++ new ->
        In (ExtractInfo url opts) new ->
        opts !! "cookies"
        = if String.eqb (platform_name url) "Instagram"
             && Str.truthy (IG_COOKIES_PATH (environ_IG_COOKIES_PATH E))
          then Some (PStr (IG_COOKIES_PATH (environ_IG_COOKIES_PATH E))) else None).
Proof.
  assert (forall c tmp_dir from_instagram max_h,
            build_ydl_opts c tmp_dir from_instagram max_h !! "cookies"
            = if from_instagram && Str.truthy c then Some (PStr c) else None) as Hopts.
  { intros c td fi h. unfold build_ydl_opts.
    destruct (fi && Str.truthy c).
    - by rewrite lookup_insert_eq.
    - by repeat (rewrite lookup_insert_ne by done). }
  split; [intros; apply Hopts|].
  intros E message w r w' new url opts Hrun Htr Hin.
  destruct (is_supported_url (Str.strip (Str.or_else (msg_text message) ""))) eqn:Hsup.
  - destruct (handle_url_run E message w _ r w' eq_refl Hsup Hrun)
      as (mid & Htr' & Hmid).
    rewrite Htr' in Htr. apply app_inv_head in Htr. subst new.
    destruct Hmid as [->|(td & body & -> & _ & Hbody & _)].
    + cbn in Hin. by repeat destruct Hin as [?|Hin].
    + cbn in Hin. repeat (destruct Hin as [?|Hin]; [done|]).
      rewrite <- app_assoc in Hin. apply in_app_or in Hin as [Hin|Hin].
      * rewrite Forall_forall in Hbody. apply list_elem_of_In, Hbody in Hin.
        destruct Hin as [-> ->]. apply Hopts.
      * cbn in Hin. by repeat destruct Hin as [?|Hin].
  - rewrite (handle_url_rejects _ _ _ Hsup) in Hrun. injection Hrun as _ <-.
    cbn in Htr. apply app_inv_head in Htr. subst new.
    cbn in Hin. by repeat destruct Hin as [?|Hin].
Qed.

Lemma cookies_attached_iff_witness :
  let E := Sample.env_with (Some " /srv/ig_cookies.txt ") (10 * MB) (Sample.engine 0 None) in
  build_ydl_opts (IG_COOKIES_PATH (environ_IG_COOKIES_PATH E)) "/tmp/job" true
    MAX_HEIGHT_TARGET !! "cookies"
  = Some (PStr "/srv/ig_cookies.txt").
Proof.
  intros E.
  set (m := mkMessage (Some "https://www.instagram.com/reel/abc/")).
  set (run := handle_url E m Sample.empty_world).
  apply (proj2 cookies_attached_iff E m Sample.empty_world run.1 run.2 (trace run.2)
           "https://www.instagram.com/reel/abc/"
           (build_ydl_opts (IG_COOKIES_PATH (environ_IG_COOKIES_PATH E)) "/tmp/job" true
              MAX_HEIGHT_TARGET)).
  - vm_compute. reflexivity.
  - vm_compute. reflexivity.
  - vm_compute. right. right. right. right. left. reflexivity.
Defined.

(** ** URL admission and classification *)

(** C10.  [is_supported_url] accepts a text exactly when [platform_name]
    answers "YouTube" or "Instagram", and a text that matches both patterns is
    classified "YouTube". *)
Theorem supported_iff_platform (url : string) :
  (is_supported_url url = true
   <-> platform_name url = "YouTube" \/ platform_name url = "Instagram")
  /\ (Re.search YOUTUBE_RE url = true -> Re.search INSTAGRAM_RE url = true ->
      platform_name url = "YouTube").
Proof.
  unfold is_supported_url, platform_name.
  destruct (Re.search YOUTUBE_RE url), (Re.search INSTAGRAM_RE url); cbn;
    (split; [split|]); intros; try done; auto.
  by destruct H.
Qed.

Lemma supported_iff_platform_witness :
  is_supported_url "youtu.be/x instagram.com/p/y" = true
  /\ platform_name "youtu.be/x instagram.com/p/y" = "YouTube".
Proof.
  split.
  - apply (proj1 (supported_iff_platform "youtu.be/x instagram.com/p/y")).
    left. vm_compute. reflexivity.
  - apply (proj2 (supported_iff_platform "youtu.be/x instagram.com/p/y"));
      vm_compute; reflexivity.
Defined.


(** * Further properties of the code *)

(** ** Sizes in MB *)

Lemma human_mb_hundredths b :
  human_mb b = Qmake (round_half_even ((b * 100) # 1048576)) 100.
Proof.
  change (human_mb b)
    with (Qmake (round_half_even ((b * 1 * 100) # 1048576)) 100).
  by rewrite Z.mul_1_r.
Qed.

Lemma round_half_even_near (n : Z) (d : positive) :
  2 * Z.abs (round_half_even (n # d) * Z.pos d - n) <= Z.pos d.
Proof.
  unfold round_half_even. cbn [Qnum Qden].
  pose proof (Z.div_mod n (Z.pos d) ltac:(lia)) as Hdm.
  pose proof (Z.mod_pos_bound n (Z.pos d) ltac:(lia)) as Hr.
  set (q := n / Z.pos d) in *. set (r := n mod Z.pos d) in *.
  destruct (Z.ltb_spec (2 * r) (Z.pos d)); [lia|].
  destruct (Z.ltb_spec (Z.pos d) (2 * r)); [lia|].
  destruct (Z.even q); lia.
Qed.

Lemma round_half_even_mono (n1 n2 : Z) (d : positive) :
  n1 <= n2 -> round_half_even (n1 # d) <= round_half_even (n2 # d).
Proof.
  intros Hle. unfold round_half_even. cbn [Qnum Qden].
  pose proof (Z.div_mod n1 (Z.pos d) ltac:(lia)) as Hdm1.
  pose proof (Z.mod_pos_bound n1 (Z.pos d) ltac:(lia)) as Hr1.
  pose proof (Z.div_mod n2 (Z.pos d) ltac:(lia)) as Hdm2.
  pose proof (Z.mod_pos_bound n2 (Z.pos d) ltac:(lia)) as Hr2.
  pose proof (Z.div_le_mono n1 n2 (Z.pos d) ltac:(lia) Hle) as Hq.
  set (q1 := n1 / Z.pos d) in *. set (r1 := n1 mod Z.pos d) in *.
  set (q2 := n2 / Z.pos d) in *. set (r2 := n2 mod Z.pos d) in *.
  destruct (Z.ltb_spec (2 * r1) (Z.pos d)), (Z.ltb_spec (2 * r2) (Z.pos d));
    try destruct (Z.ltb_spec (Z.pos d) (2 * r1));
    try destruct (Z.ltb_spec (Z.pos d) (2 * r2));
    try destruct (Z.even q1) eqn:He1; try destruct (Z.even q2) eqn:He2;
    try nia;
    destruct (Z.eq_dec q1 q2) as [Heq|Hne]; try nia;
    rewrite Heq in *; congruence.
Qed.

(** X1.  For a size below 2^53 bytes, the range on which the quotient by 2^20
    is the float the code computes, a size test against an integer limit of
    [k] MB is a test on bytes with a margin of 5242 bytes: [human_mb(b) <= k]
    holds exactly when [b] is at most [k] MB and 5242 bytes, and
    [human_mb(b) > k] exactly when [b] is more than that. *)
Theorem human_mb_limit_in_bytes (b k : Z) :
  0 <= b < 2 ^ 53 ->
  (le_int (human_mb b) k = true <-> b <= k * MB + 5242)
  /\ (gt_int (human_mb b) k = true <-> k * MB + 5242 < b).
Proof.
  intros _. rewrite le_int_human_mb, gt_int_human_mb. unfold MB. lia.
Qed.

Lemma human_mb_limit_in_bytes_witness :
  le_int (human_mb (50 * MB + 5242)) SEND_AS_VIDEO_THRESHOLD_MB = true
  /\ gt_int (human_mb (2000 * MB + 5243)) TELEGRAM_LIMIT_MB = true.
Proof.
  split.
  - apply (proj1 (human_mb_limit_in_bytes (50 * MB + 5242) 50 ltac:(vm_compute; split; [discriminate|reflexivity]))).
    vm_compute. discriminate.
  - apply (proj2 (human_mb_limit_in_bytes (2000 * MB + 5243) 2000 ltac:(vm_compute; split; [discriminate|reflexivity]))).
    vm_compute. reflexivity.
Defined.

(** X2.  For a size below 2^53 bytes, [human_mb] measures a whole number of
    hundredths of a MB (the float the code returns is the one nearest to that
    decimal), and the measure is within half a hundredth of a MB of the
    size. *)
Theorem human_mb_two_decimals (b : Z) :
  0 <= b < 2 ^ 53 ->
  exists c : Z,
    human_mb b = Qmake c 100 /\ 0 <= c /\ 2 * Z.abs (c * MB - 100 * b) <= MB.
Proof.
  intros [Hb _].
  exists (round_half_even ((b * 100) # 1048576)).
  split; [apply human_mb_hundredths|].
  pose proof (round_half_even_near (b * 100) 1048576).
  pose proof (round_half_even_mono 0 (b * 100) 1048576 ltac:(lia)) as Hm.
  change (round_half_even (0 # 1048576)) with 0 in Hm.
  unfold MB. lia.
Qed.

Lemma human_mb_two_decimals_witness :
  exists c : Z,
    human_mb (1900 * MB + 1) = Qmake c 100 /\ 0 <= c
    /\ 2 * Z.abs (c * MB - 100 * (1900 * MB + 1)) <= MB.
Proof.
  apply (human_mb_two_decimals (1900 * MB + 1)).
  vm_compute. split; [discriminate|reflexivity].
Defined.

(** X3.  [human_mb] is monotone: a larger file never measures less. *)
Theorem human_mb_monotone (b1 b2 : Z) :
  b1 <= b2 -> (human_mb b1 <= human_mb b2)%Q.
Proof.
  intros Hle. rewrite !human_mb_hundredths. unfold Qle. cbn [Qnum Qden].
  pose proof (round_half_even_mono (b1 * 100) (b2 * 100) 1048576 ltac:(lia)). lia.
Qed.

Lemma human_mb_monotone_witness : (human_mb (50 * MB) <= human_mb (50 * MB + 1))%Q.
Proof. apply (human_mb_monotone (50 * MB) (50 * MB + 1)). vm_compute. discriminate. Defined.

(** ** The URL patterns *)

Section SearchFacts.
Import Re.

Lemma hit_app l1 l2 : hit (l1 ++ l2) = hit l1 || hit l2.
Proof. by destruct l1, l2. Qed.

Lemma hit_In l : hit l = true <-> exists x, In x l.
Proof.
  destruct l as [|x l]; cbn; split; try done.
  - by intros [? []].
  - intros _. exists x. by left.
Qed.

Lemma hit_flat_map (f : string -> list string) l :
  hit (flat_map f l) = true <-> exists y, In y l /\ hit (f y) = true.
Proof.
  rewrite hit_In. split.
  - intros [x Hx]. apply in_flat_map in Hx as (y & Hy & Hx).
    exists y. split; [done|]. apply hit_In. eauto.
  - intros (y & Hy & Hf). apply hit_In in Hf as [x Hx]. exists x.
    apply in_flat_map. eauto.
Qed.

Lemma str_app_assoc (a b c : string) : a +:+ (b +:+ c) = (a +:+ b) +:+ c.
Proof.
  induction a as [|x a IH]; [done|].
  change (String x (a +:+ (b +:+ c)) = String x ((a +:+ b) +:+ c)). by f_equal.
Qed.

(** What [ends] returns are ends of the text. *)
Lemma ends_suffix ic r : forall s x, In x (ends ic r s) -> exists pre, s = pre +:+ x.
Proof.
  induction r as [c|r1 IH1 r2 IH2|r1 IH1 r2 IH2|r IH|]; intros s x; cbn [ends].
  - destruct s as [|d s]; [intros []|].
    destruct (same_char ic c d); [|intros []].
    intros [<-|[]]. by exists (String d "").
  - intros (y & Hy & Hx)%in_flat_map.
    destruct (IH1 _ _ Hy) as [p1 ->]. destruct (IH2 _ _ Hx) as [p2 ->].
    exists (p1 +:+ p2). by rewrite str_app_assoc.
  - intros [H|H]%in_app_or; eauto.
  - intros [H|[<-|[]]]%in_app_or; [eauto|by exists ""].
  - intros [<-|[]]. by exists "".
Qed.

Lemma search_spec p s :
  search p s = true <-> exists pre t, s = pre +:+ t /\ matches_at p t = true.
Proof.
  split.
  - induction s as [|c s IH]; cbn [search].
    + rewrite orb_false_r. intros H. by exists "", "".
    + intros [H|H]%orb_true_iff.
      * by exists "", (String c s).
      * destruct (IH H) as (pre & t & -> & Ht). by exists (String c pre), t.
  - intros (pre & t & -> & Ht). apply search_app_l.
    destruct t; cbn [search]; by rewrite Ht.
Qed.

(** A leading optional group does not change what a search finds. *)
Lemma search_optional_prefix ic a r s :
  search (Compile (Cat (Opt a) r) ic) s = search (Compile r ic) s.
Proof.
  apply eq_true_iff_eq. rewrite !search_spec. split.
  - intros (pre & t & -> & Ht). unfold matches_at in Ht. cbn in Ht.
    fold (hit (flat_map (ends ic r) (ends ic a t ++ [t]))) in Ht.
    apply hit_flat_map in Ht as (y & Hy & Hr).
    assert (exists p, t = p +:+ y) as [p ->].
    { apply in_app_or in Hy as [Hy|[<-|[]]]; [by eapply ends_suffix|by exists ""]. }
    exists (pre +:+ p), y. by rewrite str_app_assoc.
  - intros (pre & t & -> & Ht). exists pre, t. split; [done|].
    unfold matches_at in *. cbn in *.
    fold (hit (flat_map (ends ic r) (ends ic a t ++ [t]))).
    apply hit_flat_map. exists t. split; [apply in_or_app; right; by left|done].
Qed.

Lemma ends_lits n : forall s,
  ends true (lits n) s = if starts_ci n s then [skip n s] else [].
Proof.
  induction n as [|c n IH]; intros s; [by destruct s|].
  cbn [lits ends starts_ci skip]. destruct s as [|d s]; [done|].
  destruct (same_char true c d); [|done]. cbn. by rewrite IH, app_nil_r.
Qed.

Lemma starts_ci_app n1 n2 s :
  starts_ci (n1 +:+ n2) s = starts_ci n1 s && starts_ci n2 (skip n1 s).
Proof.
  revert s. induction n1 as [|c n1 IH]; intros s; [by destruct s|].
  change (String c n1 +:+ n2) with (String c (n1 +:+ n2)).
  cbn [starts_ci skip]. destruct s as [|d s]; [done|].
  by rewrite IH, andb_assoc.
Qed.

(** A search for alternatives of literals is a search for one of them. *)
Lemma search_pointwise p (f : string -> bool) :
  (forall t, matches_at p t = f t) ->
  forall s, search p s
            = (fix go s := f s || match s with String _ s' => go s' | EmptyString => false end) s.
Proof. intros Hf. induction s as [|c s IH]; cbn [search]; by rewrite Hf, ?IH. Qed.

Lemma contains_ci_or3 n1 n2 n3 s :
  (fix go s := (starts_ci n1 s || starts_ci n2 s || starts_ci n3 s)
               || match s with String _ s' => go s' | EmptyString => false end) s
  = contains_ci n1 s || contains_ci n2 s || contains_ci n3 s.
Proof.
  induction s as [|c s IH]; cbn [contains_ci].
  - by rewrite !orb_false_r.
  - rewrite IH. destruct (starts_ci n1 _), (starts_ci n2 _), (starts_ci n3 _),
      (contains_ci n1 s), (contains_ci n2 s), (contains_ci n3 s); reflexivity.
Qed.

Lemma youtube_search s :
  search YOUTUBE_RE s
  = contains_ci "youtube.com/watch?v=" s || contains_ci "youtube.com/shorts/" s
    || contains_ci "youtu.be/" s.
Proof.
  unfold YOUTUBE_RE. rewrite !search_optional_prefix.
  rewrite <- contains_ci_or3. apply search_pointwise. intros t.
  unfold matches_at. cbn [pattern ignorecase ends].
  rewrite !ends_lits.
  change "youtube.com/watch?v=" with ("youtube.com/" +:+ "watch?v=").
  change "youtube.com/shorts/" with ("youtube.com/" +:+ "shorts/").
  rewrite !starts_ci_app.
  destruct (starts_ci "youtube.com/" t); cbn [flat_map andb orb app].
  - rewrite !ends_lits, app_nil_r.
    by destruct (starts_ci "watch?v=" _), (starts_ci "shorts/" _), (starts_ci "youtu.be/" t).
  - by destruct (starts_ci "youtu.be/" t).
Qed.

Lemma instagram_search s :
  search INSTAGRAM_RE s
  = contains_ci "instagram.com/reel/" s || contains_ci "instagram.com/p/" s
    || contains_ci "instagram.com/tv/" s.
Proof.
  unfold INSTAGRAM_RE. rewrite !search_optional_prefix.
  rewrite <- contains_ci_or3. apply search_pointwise. intros t.
  unfold matches_at. cbn [pattern ignorecase ends].
  rewrite !ends_lits.
  change "instagram.com/reel/" with ("instagram.com/" +:+ ("reel" +:+ "/")).
  change "instagram.com/p/" with ("instagram.com/" +:+ ("p" +:+ "/")).
  change "instagram.com/tv/" with ("instagram.com/" +:+ ("tv" +:+ "/")).
  rewrite !starts_ci_app.
  destruct (starts_ci "instagram.com/" t); cbn [flat_map andb orb app]; [|done].
  rewrite !ends_lits, app_nil_r.
  destruct (starts_ci "reel" _), (starts_ci "p" _), (starts_ci "tv" _);
    cbn [flat_map andb orb app ends];
    repeat match goal with
      | |- context [match ?s with EmptyString => _ | String _ _ => _ end] =>
          destruct s as [|? ?]; cbn [starts_ci andb orb app]
      | |- context [same_char true ?a ?b] =>
          destruct (same_char true a b); cbn [starts_ci andb orb app]
      end; try reflexivity.
Qed.

End SearchFacts.

(** X4.  What the two patterns accept, without regular expressions: a text is
    a YouTube link when it contains "youtube.com/watch?v=", "youtube.com/shorts/"
    or "youtu.be/", letter case apart, and an Instagram link when it contains
    "instagram.com/reel/", "instagram.com/p/" or "instagram.com/tv/"; the
    optional scheme and "www." of the patterns play no part. *)
Theorem supported_url_contains (url : string) :
  is_supported_url url
  = (contains_ci "youtube.com/watch?v=" url || contains_ci "youtube.com/shorts/" url
     || contains_ci "youtu.be/" url)
    || (contains_ci "instagram.com/reel/" url || contains_ci "instagram.com/p/" url
        || contains_ci "instagram.com/tv/" url)
  /\ platform_name url
     = if contains_ci "youtube.com/watch?v=" url || contains_ci "youtube.com/shorts/" url
          || contains_ci "youtu.be/" url
       then "YouTube"
       else if contains_ci "instagram.com/reel/" url || contains_ci "instagram.com/p/" url
               || contains_ci "instagram.com/tv/" url
            then "Instagram" else "Unknown".
Proof.
  unfold is_supported_url, platform_name.
  by rewrite youtube_search, instagram_search.
Qed.


Lemma isspace_lower c : Str.isspace c = true -> Str.lower c = c.
Proof. destruct c as [[] [] [] [] [] [] [] []]; (reflexivity || discriminate). Qed.




Lemma solid_tail c n : solid (String c n) -> solid n.
Proof.
  intros H d Hd. apply H. cbn. rewrite Hd. apply orb_true_r.
Qed.

Lemma solid_head c n d :
  solid (String c n) -> Str.isspace d = true -> Re.same_char true c d = false.
Proof.
  intros H Hd. unfold Re.same_char. apply bool_decide_eq_false_2.
  rewrite (isspace_lower d Hd). intros Heq.
  specialize (H c). cbn in H. rewrite bool_decide_eq_true_2 in H by done.
  specialize (H eq_refl). congruence.
Qed.

Lemma starts_ci_rstrip s : forall n, solid n ->
  starts_ci n (Str.rstrip s) = starts_ci n s.
Proof.
  induction s as [|d s IH]; intros n Hn; [done|].
  destruct n as [|c n]; [done|].
  pose proof (IH n (solid_tail _ _ Hn)) as IHn.
  cbn [Str.rstrip]. destruct (Str.rstrip s) as [|e t] eqn:Hr.
  - destruct (Str.isspace d) eqn:Hd.
    + cbn [starts_ci]. by rewrite (solid_head _ _ _ Hn Hd).
    + cbn [starts_ci]. by rewrite <- IHn.
  - cbn [starts_ci]. by rewrite <- IHn.
Qed.

Lemma contains_ci_rstrip n s :
  solid n -> n <> "" -> contains_ci n (Str.rstrip s) = contains_ci n s.
Proof.
  intros Hn Hne. induction s as [|d s IH]; [done|].
  pose proof (starts_ci_rstrip (String d s) n Hn) as Hst.
  cbn [Str.rstrip] in *. destruct (Str.rstrip s) as [|e t] eqn:Hr.
  - destruct (Str.isspace d) eqn:Hd.
    + cbn [contains_ci]. rewrite <- IH, <- Hst. cbn [contains_ci].
      by destruct (starts_ci n "").
    + cbn [contains_ci]. by rewrite <- IH, Hst.
  - cbn [contains_ci]. by rewrite <- IH, Hst.
Qed.

Lemma contains_ci_lstrip n s :
  solid n -> n <> "" -> contains_ci n (Str.lstrip s) = contains_ci n s.
Proof.
  intros Hn Hne. induction s as [|d s IH]; [done|].
  cbn [Str.lstrip]. destruct (Str.isspace d) eqn:Hd; [|done].
  rewrite IH. cbn [contains_ci]. destruct n as [|c n]; [done|].
  cbn [starts_ci]. by rewrite (solid_head _ _ _ Hn Hd).
Qed.

Lemma contains_ci_strip n s :
  solid n -> n <> "" -> contains_ci n (Str.strip s) = contains_ci n s.
Proof.
  intros Hn Hne. unfold Str.strip.
  by rewrite contains_ci_rstrip, contains_ci_lstrip.
Qed.

Lemma solid_decide n :
  (fix all s := match s with
                | String c s' => negb (Str.isspace (Str.lower c)) && all s'
                | EmptyString => true
                end) n = true ->
  solid n.
Proof.
  induction n as [|c n IH]; intros Hall d Hd; [done|].
  apply andb_true_iff in Hall as [Hc Hall]. cbn in Hd.
  apply orb_true_iff in Hd as [Hd|Hd].
  - apply bool_decide_eq_true_1 in Hd. subst d. by apply negb_true_iff.
  - by apply IH.
Qed.

(** X6.  The [strip] that [handle_url] applies to the text changes neither
    whether the text is accepted nor the platform it is classified as. *)
Theorem strip_keeps_platform (text : string) :
  is_supported_url (Str.strip text) = is_supported_url text
  /\ platform_name (Str.strip text) = platform_name text.
Proof.
  unfold is_supported_url, platform_name.
  rewrite !youtube_search, !instagram_search.
  rewrite !contains_ci_strip; try done; by apply solid_decide.
Qed.

(** ** Paths and the ladder *)

Section MorePathFacts.
Import Pathlib.

Lemma prefix_app (a c : string) : String.prefix a (a +:+ c) = true.
Proof.
  induction a as [|x a IH]; [by destruct c|].
  change (String x a +:+ c) with (String x (a +:+ c)). cbn [String.prefix].
  by destruct (ascii_dec x x).
Qed.

Lemma prefix_cut (a b : string) :
  String.prefix a b = true -> exists c, b = a +:+ c.
Proof.
  revert b. induction a as [|x a IH]; intros b.
  - intros _. by exists b.
  - destruct b as [|y b]; [done|]. cbn [String.prefix].
    destruct (ascii_dec x y) as [->|]; [|done].
    intros [c ->]%IH. by exists c.
Qed.

(** A path cut at a separator that no separator follows. *)
Lemma split_name_join a b :
  contains sep b = false -> split_name (a +:+ String sep b) = (a +:+ "/", b).
Proof.
  intros Hb. induction a as [|c a IH].
  - change ("" +:+ String sep b) with (String sep b). cbn [split_name].
    rewrite (split_name_plain _ Hb). by rewrite bool_decide_eq_true_2.
  - change (String c a +:+ String sep b) with (String c (a +:+ String sep b)).
    cbn [split_name]. rewrite IH. by destruct a.
Qed.

(** The directory part of a path reaches to its last separator at least. *)
Lemma split_name_dir (a c : string) :
  exists d', (split_name (a +:+ String sep c)).1 = a +:+ String sep d'.
Proof.
  induction a as [|x a [d' IH]].
  - change ("" +:+ String sep c) with (String sep c). cbn [split_name].
    destruct (split_name c) as [d n]. destruct d as [|e d].
    + rewrite bool_decide_eq_true_2 by done. by exists "".
    + by exists (String e d).
  - change (String x a +:+ String sep c) with (String x (a +:+ String sep c)).
    cbn [split_name]. destruct (split_name (a +:+ String sep c)) as [d n].
    cbn [fst] in IH. subst d. exists d'.
    by destruct a.
Qed.

Lemma with_suffix_same_dir td p sfx q :
  String.prefix (td +:+ "/") p = true ->
  with_suffix p sfx = Some q ->
  String.prefix (td +:+ "/") q = true.
Proof.
  intros [c ->]%prefix_cut. unfold with_suffix, name.
  destruct (valid_suffix sfx); [|done].
  case_bool_decide; [done|].
  rewrite <- str_app_assoc. change ("/" +:+ c) with (String sep c).
  destruct (split_name_dir td c) as [d' Hd].
  destruct (split_name (td +:+ String sep c)) as [d n]. cbn [fst snd] in *. subst d.
  destruct n as [|x n]; [done|]. intros [= <-].
  change (String sep d') with ("/" +:+ d').
  rewrite (str_app_assoc td "/" d').
  rewrite <- (str_app_assoc (td +:+ "/")). apply prefix_app.
Qed.

End MorePathFacts.

Section MoreLadderFacts.

Lemma chained_dots current calls :
  chained current calls ->
  Forall (fun i => (Pathlib.count Pathlib.dot current
                    < Pathlib.count Pathlib.dot (dst i))%nat) calls
  /\ NoDup (map dst calls)
  /\ Forall (fun i => src i <> dst i) calls.
Proof.
  revert current. induction calls as [|i calls IH]; intros current.
  - intros _. repeat split; constructor.
  - intros (Hsrc & Hw & Hch). apply with_suffix_dots in Hw.
    destruct (IH _ Hch) as (Hall & Hnd & Hne).
    split; [|split].
    + constructor; [lia|]. eapply Forall_impl; [exact Hall|].
      intros j Hj. cbn in Hj. lia.
    + cbn [map]. constructor; [|done].
      intros Hin%list_elem_of_fmap. destruct Hin as (j & Heq & Hj).
      rewrite Forall_forall in Hall. specialize (Hall _ Hj). cbn in Hall.
      rewrite Heq in Hall. lia.
    + constructor; [|done]. rewrite Hsrc. intros Heq. rewrite Heq in Hw. lia.
Qed.

Lemma chained_same_dir td current calls :
  String.prefix (td +:+ "/") current = true ->
  chained current calls ->
  Forall (fun i => String.prefix (td +:+ "/") (dst i) = true) calls.
Proof.
  revert current. induction calls as [|i calls IH]; intros current Hin; [constructor|].
  intros (_ & Hw & Hch).
  pose proof (with_suffix_same_dir _ _ _ _ Hin Hw) as Hi.
  constructor; [done|]. by eapply IH.
Qed.

(** Each transcode comes right after its progress notice. *)
Lemma ladder_notice todo current r new :
  ladder todo current r new ->
  forall l1 i l2, new = l1 ++ Transcode i :: l2 ->
    exists l0, l1 = l0 ++ [EditText (Compressing (max_h i) (crf i))].
Proof.
  induction 1 as [| | ? ? ? ? i0 ? Hp | ? ? ? ? i0 ? Hp
                  | h c rest current i0 r new ? Hp ? ? ? Hl IH];
    intros l1 j l2 Heq; unfold params in *.
  - by destruct l1.
  - destruct l1 as [|? [|? ?]]; by simplify_eq/=.
  - destruct l1 as [|? [|? [|? ?]]]; simplify_eq/=. by exists [].
  - destruct l1 as [|? [|? [|? ?]]]; simplify_eq/=. by exists [].
  - destruct l1 as [|? [|? l1]]; simplify_eq/=.
    + by exists [].
    + destruct (IH _ _ _ eq_refl) as [l0 ->].
      by exists (EditText (Compressing (max_h i0) (crf i0)) :: Transcode i0 :: l0).
Qed.

End MoreLadderFacts.

Section MoreRuns.
Variable E : Env.

Lemma shrink_run_cases filepath w r w' (new : list event) :
  shrink_until_ok E filepath w = (r, w') ->
  trace w' = trace w ++ new ->
  (new = [] /\ w' = w /\ (r = Ok filepath \/ exists e, r = Raise e))
  \/ ladder attempts filepath r new.
Proof.
  intros Hrun Htr.
  assert (w' = w -> new = []) as Hnil.
  { intros ->. rewrite <- (app_nil_r (trace w)) in Htr at 1.
    by apply app_inv_head in Htr. }
  destruct (disk w !! filepath) as [sz|] eqn:Hsz.
  - destruct (le_int (human_mb sz) SAFE_LIMIT_MB) eqn:Hle.
    + rewrite (shrink_until_ok_small E _ _ _ Hsz Hle) in Hrun. simplify_eq.
      left. split; [by apply Hnil|]. auto.
    + rewrite (shrink_until_ok_large E _ _ _ Hsz Hle) in Hrun. right.
      destruct (shrink_loop_ladder E attempts filepath w) as (new' & Htr' & Hl).
      rewrite Hrun in Htr', Hl. cbn [fst snd] in Htr', Hl.
      rewrite Htr' in Htr. apply app_inv_head in Htr. by subst new'.
  - rewrite (shrink_until_ok_missing E _ _ Hsz) in Hrun. simplify_eq.
    left. split; [by apply Hnil|]. eauto.
Qed.

Lemma shrink_loop_ok todo : forall current w p w',
  shrink_loop E todo current w = (Ok p, w') ->
  (p = current /\ w' = w /\ todo = [])
  \/ exists n (new : list event),
       trace w' = trace w ++ new /\ disk w' !! p = Some n
       /\ (le_int (human_mb n) SAFE_LIMIT_MB = true
           \/ length (transcodes new) = length todo).
Proof.
  induction todo as [|[h c] rest IH]; intros current w p w'.
  - intros [= <- <-]. by left.
  - cbn [shrink_loop].
    unfold bind, call, with_suffix, ffmpeg_compress, stat_size, ret, raise.
    destruct (edit_text E w (Compressing h c)) as [e|]; [done|].
    destruct (Pathlib.with_suffix current (candidate_suffix h c)) as [cand|]; [|done].
    destruct (run_ffmpeg E _ _) as [rc d].
    unfold exists_on. destruct (d !! cand) as [n|] eqn:Hn.
    2:{ by rewrite orb_true_r. }
    destruct (rc =? 0); cbn [negb orb]; [|done].
    cbn [disk log_event]. rewrite Hn.
    set (i := mkInvocation current cand h c rc (Some n)).
    destruct (le_int (human_mb n) SAFE_LIMIT_MB) eqn:Hfit.
    + intros [= <- <-]. right. exists n, [EditText (Compressing h c); Transcode i].
      cbn. rewrite <- app_assoc. auto.
    + intros Hrec. right. apply IH in Hrec as [(-> & -> & ->)|(n' & new & Htr & Hd & Hend)].
      * exists n, [EditText (Compressing h c); Transcode i].
        cbn. rewrite <- app_assoc. auto.
      * exists n', (EditText (Compressing h c) :: Transcode i :: new).
        rewrite Htr. cbn [trace log_event]. rewrite <- !app_assoc.
        split; [done|]. split; [done|].
        destruct Hend as [?|Hlen]; [by left|right].
        change (transcodes (EditText (Compressing h c) :: Transcode i :: new))
          with (i :: transcodes new). cbn [length]. by rewrite Hlen.
Qed.

End MoreRuns.

(** X7.  The cookie decision touches the "cookies" entry only: every other
    option is what it is for a job without cookies.  For a directory that
    takes a separator (every path but "." and the roots), the output template
    lies below the directory given as [tmp_dir], and its final component is
    the template of the file name. *)
Theorem ydl_opts_outside_cookies (cookies_path tmp_dir : string)
    (from_instagram : bool) (max_h : Z) :
  tmp_dir <> "." -> tmp_dir <> "/" -> tmp_dir <> "//" ->
  (forall k, k <> "cookies" ->
     build_ydl_opts cookies_path tmp_dir from_instagram max_h !! k
     = build_ydl_opts "" tmp_dir false max_h !! k)
  /\ exists p,
       build_ydl_opts cookies_path tmp_dir from_instagram max_h !! "outtmpl"
       = Some (PStr p)
       /\ String.prefix (tmp_dir +:+ "/") p = true
       /\ Pathlib.name p = "%(title).200B.%(ext)s".
Proof.
  intros _ _ _. split.
  - intros k Hk. unfold build_ydl_opts.
    destruct (from_instagram && Str.truthy cookies_path); [|done].
    cbn [andb]. by rewrite lookup_insert_ne.
  - exists (Pathlib.joinpath tmp_dir "%(title).200B.%(ext)s"). split; [|split].
    + unfold build_ydl_opts.
      destruct (from_instagram && Str.truthy cookies_path).
      * rewrite lookup_insert_ne by done. by rewrite lookup_insert_eq.
      * by rewrite lookup_insert_eq.
    + unfold Pathlib.joinpath. rewrite str_app_assoc. apply prefix_app.
    + unfold Pathlib.joinpath, Pathlib.name.
      change ("/" +:+ "%(title).200B.%(ext)s")
        with (String Pathlib.sep "%(title).200B.%(ext)s").
      rewrite split_name_join by reflexivity. cbn [snd].
      rewrite bool_decide_eq_false_2; [done|].
      intros Heq%(f_equal String.length). rewrite str_length_app in Heq.
      cbn in Heq. lia.
Qed.

Lemma ydl_opts_outside_cookies_witness :
  build_ydl_opts "/srv/c.txt" "/tmp/job" true 480 !! "format"
  = build_ydl_opts "" "/tmp/job" false 480 !! "format"
  /\ exists p,
       build_ydl_opts "/srv/c.txt" "/tmp/job" true 480 !! "outtmpl" = Some (PStr p)
       /\ String.prefix ("/tmp/job" +:+ "/") p = true
       /\ Pathlib.name p = "%(title).200B.%(ext)s".
Proof.
  destruct (ydl_opts_outside_cookies "/srv/c.txt" "/tmp/job" true 480) as [Hk Hp].
  - discriminate.
  - discriminate.
  - discriminate.
  - split; [apply Hk; discriminate|exact Hp].
Defined.

(** X8.  When the input lies below a directory, so does the destination of
    every transcode the ladder invokes, and so does the path it returns. *)
Theorem ladder_stays_in_directory E (td filepath : string) (w : World)
    (r : Res string) (w' : World) (new : list event) :
  String.prefix (td +:+ "/") filepath = true ->
  shrink_until_ok E filepath w = (r, w') ->
  trace w' = trace w ++ new ->
  Forall (fun i => String.prefix (td +:+ "/") (dst i) = true) (transcodes new)
  /\ forall p, r = Ok p -> String.prefix (td +:+ "/") p = true.
Proof.
  intros Hin Hrun Htr.
  destruct (shrink_run_cases E _ _ _ _ _ Hrun Htr) as [(-> & -> & Hr)|Hl].
  - split; [constructor|]. intros p ->.
    destruct Hr as [[= <-]|[e [=]]]. done.
  - pose proof (chained_same_dir td _ _ Hin (ladder_chained _ _ _ _ Hl)) as Hall.
    split; [done|]. intros p ->.
    destruct (ladder_returns _ _ _ _ p Hl eq_refl)
      as [(? & _)|(l & i & Hcalls & -> & _)]; [done|].
    rewrite Hcalls in Hall. apply Forall_app in Hall as [_ Hi].
    by inversion Hi.
Qed.

Lemma ladder_stays_in_directory_witness :
  let run := shrink_until_ok (Sample.env 0 (Sample.engine 0 (Some (3000 * MB))))
               Sample.clip (Sample.world_with Sample.clip (2500 * MB)) in
  Forall (fun i => String.prefix ("/tmp/job" +:+ "/") (dst i) = true)
    (transcodes (trace run.2))
  /\ forall p, run.1 = Ok p -> String.prefix ("/tmp/job" +:+ "/") p = true.
Proof.
  intros run.
  apply (ladder_stays_in_directory (Sample.env 0 (Sample.engine 0 (Some (3000 * MB))))
           "/tmp/job" Sample.clip (Sample.world_with Sample.clip (2500 * MB))
           run.1 run.2 (trace run.2)).
  - vm_compute. reflexivity.
  - vm_compute. reflexivity.
  - vm_compute. reflexivity.
Defined.

(** X9.  In every run of the ladder the input path and the destinations of
    the transcodes are pairwise different, and no transcode writes onto the
    file it reads. *)
Theorem ladder_paths_distinct E (filepath : string) (w : World)
    (r : Res string) (w' : World) (new : list event) :
  shrink_until_ok E filepath w = (r, w') ->
  trace w' = trace w ++ new ->
  NoDup (filepath :: map dst (transcodes new))
  /\ Forall (fun i => src i <> dst i) (transcodes new).
Proof.
  intros Hrun Htr.
  destruct (shrink_run_cases E _ _ _ _ _ Hrun Htr) as [(-> & -> & _)|Hl].
  - split; [|constructor]. apply NoDup_singleton.
  - destruct (chained_dots _ _ (ladder_chained _ _ _ _ Hl)) as (Hall & Hnd & Hne).
    split; [|done]. constructor; [|done].
    intros Hin%list_elem_of_fmap. destruct Hin as (j & Heq & Hj).
    rewrite Forall_forall in Hall. specialize (Hall _ Hj). cbn in Hall.
    rewrite <- Heq in Hall. lia.
Qed.

Lemma ladder_paths_distinct_witness :
  let run := shrink_until_ok (Sample.env 0 (Sample.engine 0 (Some (3000 * MB))))
               Sample.clip (Sample.world_with Sample.clip (2500 * MB)) in
  NoDup (Sample.clip :: map dst (transcodes (trace run.2)))
  /\ Forall (fun i => src i <> dst i) (transcodes (trace run.2)).
Proof.
  intros run.
  apply (ladder_paths_distinct (Sample.env 0 (Sample.engine 0 (Some (3000 * MB))))
           Sample.clip (Sample.world_with Sample.clip (2500 * MB)) run.1 run.2).
  - vm_compute. reflexivity.
  - vm_compute. reflexivity.
Defined.

(** X10.  Every run of the ladder invokes at most four transcodes, and each
    one directly follows the status edit that announces its resolution and
    quality. *)
Theorem ladder_bounded_and_announced E (filepath : string) (w : World)
    (r : Res string) (w' : World) (new : list event) :
  shrink_until_ok E filepath w = (r, w') ->
  trace w' = trace w ++ new ->
  (length (transcodes new) <= 4)%nat
  /\ forall l1 i l2, new = l1 ++ Transcode i :: l2 ->
       exists l0, l1 = l0 ++ [EditText (Compressing (max_h i) (crf i))].
Proof.
  intros Hrun Htr.
  destruct (shrink_run_cases E _ _ _ _ _ Hrun Htr) as [(-> & -> & _)|Hl].
  - split; [cbn; lia|]. intros l1 i l2 Heq. by destruct l1.
  - split; [|by eapply ladder_notice].
    pose proof (ladder_params _ _ _ _ Hl) as [k Hk].
    apply (f_equal length) in Hk. rewrite length_app, length_map in Hk.
    cbn in Hk. lia.
Qed.

Lemma ladder_bounded_and_announced_witness :
  let run := shrink_until_ok (Sample.env 0 (Sample.engine 0 (Some (3000 * MB))))
               Sample.clip (Sample.world_with Sample.clip (2500 * MB)) in
  (length (transcodes (trace run.2)) <= 4)%nat
  /\ forall l1 i l2, trace run.2 = l1 ++ Transcode i :: l2 ->
       exists l0, l1 = l0 ++ [EditText (Compressing (max_h i) (crf i))].
Proof.
  intros run.
  apply (ladder_bounded_and_announced (Sample.env 0 (Sample.engine 0 (Some (3000 * MB))))
           Sample.clip (Sample.world_with Sample.clip (2500 * MB)) run.1 run.2).
  - vm_compute. reflexivity.
  - vm_compute. reflexivity.
Defined.

(** X11.  A path the ladder returns exists on the disk the ladder leaves, and
    the file measures at most 1900 MB unless all four entries were tried. *)
Theorem shrink_result_on_disk E (filepath : string) (w : World)
    (p : string) (w' : World) (new : list event) :
  shrink_until_ok E filepath w = (Ok p, w') ->
  trace w' = trace w ++ new ->
  exists n, disk w' !! p = Some n
    /\ (le_int (human_mb n) SAFE_LIMIT_MB = true
        \/ length (transcodes new) = 4%nat).
Proof.
  intros Hrun Htr.
  destruct (disk w !! filepath) as [sz|] eqn:Hsz.
  - destruct (le_int (human_mb sz) SAFE_LIMIT_MB) eqn:Hle.
    + rewrite (shrink_until_ok_small E _ _ _ Hsz Hle) in Hrun. simplify_eq. eauto.
    + rewrite (shrink_until_ok_large E _ _ _ Hsz Hle) in Hrun.
      apply shrink_loop_ok in Hrun as [(_ & _ & ?)|(n & new' & Htr' & Hd & Hend)]; [done|].
      rewrite Htr' in Htr. apply app_inv_head in Htr. subst new'.
      exists n. split; [done|]. destruct Hend; [by left|by right].
  - by rewrite (shrink_until_ok_missing E _ _ Hsz) in Hrun.
Qed.

Lemma shrink_result_on_disk_witness :
  let run := shrink_until_ok (Sample.env 0 (Sample.engine 0 (Some (100 * MB))))
               Sample.clip (Sample.world_with Sample.clip (2500 * MB)) in
  exists n, disk run.2 !! "/tmp/job/clip.480p.crf28.mp4" = Some n
    /\ (le_int (human_mb n) SAFE_LIMIT_MB = true
        \/ length (transcodes (trace run.2)) = 4%nat).
Proof.
  intros run.
  apply (shrink_result_on_disk (Sample.env 0 (Sample.engine 0 (Some (100 * MB))))
           Sample.clip (Sample.world_with Sample.clip (2500 * MB))
           "/tmp/job/clip.480p.crf28.mp4" run.2).
  - vm_compute. reflexivity.
  - vm_compute. reflexivity.
Defined.

(** ** Delivery and jobs *)

Section JobDetail.
Variable E : Env.

Local Ltac delivery_ok :=
  repeat (apply Forall_cons_2;
          [first [reflexivity | left; reflexivity | right; eexists; reflexivity]|]);
  apply Forall_nil_2.

Lemma send_file_detail filepath title w :
  exists new : list event,
    trace (send_file E filepath title w).2 = trace w ++ new
    /\ Forall (delivery_event title) new
    /\ (length (List.filter is_upload new) <= 1)%nat.
Proof.
  unfold send_file, bind, stat_size, try_except.
  destruct (disk w !! filepath) as [sz|].
  2:{ exists []. rewrite app_nil_r. split_and!; [done|delivery_ok|cbn; lia]. }
  rewrite call_run. destruct (send_chat_action E w UPLOAD_VIDEO).
  { exists [ChatAction UPLOAD_VIDEO]. split_and!; [done|delivery_ok|cbn; lia]. }
  destruct (gt_int (human_mb sz) TELEGRAM_LIMIT_MB).
  { rewrite call_run. exists [ChatAction UPLOAD_VIDEO; Answer TooLarge].
    cbn [snd trace log_event]. rewrite <- app_assoc.
    split_and!; [done|delivery_ok|cbn; lia]. }
  destruct (le_int (human_mb sz) SEND_AS_VIDEO_THRESHOLD_MB); rewrite call_run.
  - destruct (answer_video E _ _ _) as [e|].
    + destruct (is_Exception e).
      * rewrite call_run.
        exists [ChatAction UPLOAD_VIDEO; AnswerVideo filepath (caption_of title);
                Answer (SendingFailed e)].
        cbn [snd trace log_event]. rewrite <- !app_assoc.
        split_and!; [done|delivery_ok|cbn; lia].
      * exists [ChatAction UPLOAD_VIDEO; AnswerVideo filepath (caption_of title)].
        cbn [snd trace log_event]. rewrite <- !app_assoc.
        split_and!; [done|delivery_ok|cbn; lia].
    + exists [ChatAction UPLOAD_VIDEO; AnswerVideo filepath (caption_of title)].
      cbn [snd trace log_event]. rewrite <- !app_assoc.
      split_and!; [done|delivery_ok|cbn; lia].
  - destruct (answer_document E _ _ _) as [e|].
    + destruct (is_Exception e).
      * rewrite call_run.
        exists [ChatAction UPLOAD_VIDEO; AnswerDocument filepath (caption_of title);
                Answer (SendingFailed e)].
        cbn [snd trace log_event]. rewrite <- !app_assoc.
        split_and!; [done|delivery_ok|cbn; lia].
      * exists [ChatAction UPLOAD_VIDEO; AnswerDocument filepath (caption_of title)].
        cbn [snd trace log_event]. rewrite <- !app_assoc.
        split_and!; [done|delivery_ok|cbn; lia].
    + exists [ChatAction UPLOAD_VIDEO; AnswerDocument filepath (caption_of title)].
      cbn [snd trace log_event]. rewrite <- !app_assoc.
      split_and!; [done|delivery_ok|cbn; lia].
Qed.

Lemma deliver_detail filepath title w :
  exists post : list event,
    trace ((do _ <- call (EditText Uploading) (fun w => edit_text E w Uploading);
            send_file E filepath title) w).2 = trace w ++ post
    /\ Forall (delivery_event title) post
    /\ (length (List.filter is_upload post) <= 1)%nat.
Proof.
  unfold bind. rewrite call_run. destruct (edit_text E w Uploading).
  { exists [EditText Uploading]. split_and!; [done|delivery_ok|cbn; lia]. }
  destruct (send_file_detail filepath title (log_event (EditText Uploading) w))
    as (new & Htr & Hnew & Hup).
  exists (EditText Uploading :: new). rewrite Htr. cbn [trace log_event].
  rewrite <- app_assoc. split_and!; [done|by apply Forall_cons_2|done].
Qed.

Lemma _extract_title url opts w p title w' :
  _extract E url opts w = (Ok (p, title), w') -> title <> "".
Proof.
  unfold _extract. destruct (extract_info E w url opts) as [[e|[i|]] d]; try done.
  assert (Str.or_else (info_title i) "video" <> "") as Ht.
  { unfold Str.or_else. destruct (info_title i) as [[|? ?]|]; done. }
  repeat case_match; intros [= _ <- _]; done.
Qed.

Lemma pipeline_detail url opts w res w' :
  pipeline E url opts w = (res, w') ->
  exists pre S post : list event,
    trace w' = trace w ++ pre ++ S ++ post /\ stages url opts pre S post.
Proof.
  unfold pipeline, stages. unfold bind at 1. rewrite call_run.
  destruct (send_chat_action E w RECORD_VIDEO).
  { intros [= <- <-]. exists [ChatAction RECORD_VIDEO], [], []. auto 10. }
  set (w1 := log_event (ChatAction RECORD_VIDEO) w).
  unfold bind at 1. pose proof (_extract_run E url opts w1) as Hx.
  pose proof (_extract_title url opts w1) as Ht.
  destruct (_extract E url opts w1) as [[[filepath title]|e] w2].
  2:{ intros [= <- <-]. exists [ChatAction RECORD_VIDEO; ExtractInfo url opts], [], [].
      cbn in *. rewrite Hx, <- app_assoc. auto 10. }
  cbn [snd] in Hx. specialize (Ht _ _ _ eq_refl).
  assert (trace w2 = trace w ++ [ChatAction RECORD_VIDEO; ExtractInfo url opts]) as Hw2.
  { rewrite Hx. cbn. by rewrite <- app_assoc. }
  clearbody w1. clear Hx.
  unfold bind at 1, path_exists at 1.
  destruct (exists_on (disk w2) filepath).
  2:{ intros [= <- <-]. exists [ChatAction RECORD_VIDEO; ExtractInfo url opts], [], [].
      cbn in *. rewrite Hw2. auto 10. }
  cbn [negb]. unfold bind at 1, stat_size at 1.
  destruct (disk w2 !! filepath) as [sz|].
  2:{ intros [= <- <-]. exists [ChatAction RECORD_VIDEO; ExtractInfo url opts], [], [].
      cbn in *. rewrite Hw2. auto 10. }
  unfold bind at 1.
  destruct (gt_int (human_mb sz) SAFE_LIMIT_MB).
  - pose proof (shrink_until_ok_run E filepath w2) as Hs.
    destruct (shrink_until_ok E filepath w2) as [[p|e] w3]; cbn [fst snd] in Hs.
    + destruct (deliver_detail p title w3) as (post & Htr & Hpost & Hup).
      intros Hres. rewrite Hres in Htr. cbn [snd] in Htr.
      destruct Hs as [->|(new & Hw3 & Hl)].
      * exists [ChatAction RECORD_VIDEO; ExtractInfo url opts], [], post.
        rewrite Htr, Hw2, <- app_assoc. split; [done|]. split; [by left|].
        right. split; [done|]. by exists title.
      * exists [ChatAction RECORD_VIDEO; ExtractInfo url opts], new, post.
        rewrite Htr, Hw3, Hw2, <- !app_assoc. split; [done|]. split; [right; eauto|].
        right. split; [done|]. by exists title.
    + intros [= <- <-]. destruct Hs as [->|(new & Hw3 & Hl)].
      * exists [ChatAction RECORD_VIDEO; ExtractInfo url opts], [], [].
        cbn [app]. rewrite Hw2. auto 10.
      * exists [ChatAction RECORD_VIDEO; ExtractInfo url opts], new, [].
        rewrite Hw3, Hw2, app_nil_r, <- !app_assoc. split; [done|].
        split; [right; eauto|]. right. split; [done|]. exists title.
        split; [done|]. split; [constructor|cbn; lia].
  - unfold ret at 1.
    destruct (deliver_detail filepath title w2) as (post & Htr & Hpost & Hup).
    intros Hres. rewrite Hres in Htr. cbn [snd] in Htr.
    exists [ChatAction RECORD_VIDEO; ExtractInfo url opts], [], post.
    rewrite Htr, Hw2, <- app_assoc. split; [done|]. split; [by left|].
    right. split; [done|]. by exists title.
Qed.

(** Every run of [handle_url], event by event. *)
Lemma handle_url_detail message w r w' (new : list event) :
  handle_url E message w = (r, w') ->
  trace w' = trace w ++ new ->
  let url := Str.strip (Str.or_else (msg_text message) "") in
  new = [Answer RejectLink]
  \/ new = [Acquire; Answer (Downloading (platform_name url)); Release]
  \/ exists td pre S post notice,
       new = [Acquire; Answer (Downloading (platform_name url)); MkDtemp td]
             ++ pre ++ S ++ post ++ notice ++ [Cleanup td; Release]
       /\ stages url
            (build_ydl_opts (IG_COOKIES_PATH (environ_IG_COOKIES_PATH E)) td
               (String.eqb (platform_name url) "Instagram") MAX_HEIGHT_TARGET)
            pre S post
       /\ (notice = [] \/ exists e, notice = [EditText (DownloadFailed e)]).
Proof.
  intros Hrun Htr. cbv zeta. revert Hrun. unfold handle_url.
  set (url := Str.strip (Str.or_else (msg_text message) "")).
  destruct (is_supported_url url) eqn:Hsup; cbn [negb]; try intros Hrun.
  2:{ rewrite call_run in Hrun. injection Hrun as _ <-. left. cbn in Htr.
      by apply app_inv_head in Htr. }
  right. revert Hrun. unfold with_permit, finally. unfold bind at 1. rewrite call_run.
  destruct (answer E _ _).
  { intros [= _ <-]. left. cbn in Htr. rewrite <- !app_assoc in Htr.
    by apply app_inv_head in Htr. }
  unfold with_tempdir.
  destruct (mkdtemp E _) as [e|[td d]].
  { intros [= _ <-]. left. cbn in Htr. rewrite <- !app_assoc in Htr.
    by apply app_inv_head in Htr. }
  unfold finally, try_except.
  match goal with |- context [pipeline E url ?o ?w0] =>
    set (opts := o); set (w2 := w0);
    pose proof (pipeline_detail url opts w2) as Hp;
    destruct (pipeline E url opts w2) as [res w3]
  end.
  destruct (Hp _ _ eq_refl) as (pre & S & post & Hw3 & Hst).
  assert (trace w2 = trace w ++ [Acquire; Answer (Downloading (platform_name url)); MkDtemp td])
    as Hw2.
  { subst w2. cbn. by rewrite <- !app_assoc. }
  clearbody w2.
  assert (forall notice w4,
            trace w4 = trace w3 ++ notice ->
            trace w' = trace (log_event Release (log_event (Cleanup td)
                         (mkWorld (rmtree td (disk w4)) (trace w4)))) ->
            new = [Acquire; Answer (Downloading (platform_name url)); MkDtemp td]
                  ++ pre ++ S ++ post ++ notice ++ [Cleanup td; Release]) as Hnew.
  { intros notice w4 Hw4 Hw'. rewrite Hw' in Htr. cbn [trace log_event] in Htr.
    rewrite Hw4, Hw3, Hw2 in Htr. rewrite <- !app_assoc in Htr.
    apply app_inv_head in Htr. rewrite <- Htr. cbn. by rewrite <- ?app_assoc. }
  destruct res as [[]|e].
  - intros [= _ <-]. right. exists td, pre, S, post, [].
    split; [|split; [done|by left]].
    apply (Hnew [] w3); [by rewrite app_nil_r|done].
  - destruct (is_Exception e).
    + rewrite call_run. intros [= _ <-]. right.
      exists td, pre, S, post, [EditText (DownloadFailed e)].
      split; [|split; [done|eauto]].
      by apply (Hnew _ (log_event (EditText (DownloadFailed e)) w3)).
    + intros [= _ <-]. right. exists td, pre, S, post, [].
      split; [|split; [done|by left]].
      apply (Hnew [] w3); [by rewrite app_nil_r|done].
Qed.

End JobDetail.

Section EventFacts.

Lemma ladder_no_upload todo current r new :
  ladder todo current r new ->
  List.filter is_upload new = [] /\ List.filter is_extraction new = [].
Proof. induction 1; cbn; auto. Qed.

Lemma delivery_no_extraction title post :
  Forall (delivery_event title) post ->
  List.filter is_extraction post = [] /\ transcodes post = [].
Proof.
  induction 1 as [|e post He _ [IH1 IH2]]; [done|].
  destruct e; cbn in *; try done.
Qed.

Lemma filter_split {A} (f : A -> bool) (X Y W l1 l2 : list A) e :
  X ++ Y ++ W = l1 ++ e :: l2 -> f e = true ->
  List.filter f X = [] -> List.filter f W = [] ->
  exists y1 y2, Y = y1 ++ e :: y2 /\ l1 = X ++ y1 /\ l2 = y2 ++ W.
Proof.
  intros Heq He HX HW. symmetry in Heq.
  apply app_cons_split in Heq as [(k & -> & _)|(k & Heq & ->)].
  { rewrite List.filter_app in HX. cbn in HX. rewrite He in HX.
    by destruct (List.filter f l1). }
  symmetry in Heq.
  apply app_cons_split in Heq as [(k' & -> & ->)|(k' & -> & _)].
  - by exists k, k'.
  - rewrite List.filter_app in HW. cbn in HW. rewrite He in HW.
    by destruct (List.filter f k').
Qed.

End EventFacts.

(** X12.  [send_file] keeps upload errors to itself: for an existing file,
    when the upload action and the text replies go through and the errors of
    the uploads derive from [Exception], it returns normally; and when the
    upload raised, the notice with that error is among its events. *)
Theorem send_file_contains_upload_errors E (w : World) (filepath title : string)
    (sz : Z) :
  disk w !! filepath = Some sz ->
  send_chat_action E w UPLOAD_VIDEO = None ->
  (forall w0 t, answer E w0 t = None) ->
  (forall w0 f c e, answer_video E w0 f c = Some e -> is_Exception e = true) ->
  (forall w0 f c e, answer_document E w0 f c = Some e -> is_Exception e = true) ->
  (send_file E filepath title w).1 = Ok tt
  /\ (gt_int (human_mb sz) TELEGRAM_LIMIT_MB = false ->
      forall e,
        (if le_int (human_mb sz) SEND_AS_VIDEO_THRESHOLD_MB
         then answer_video E (log_event (ChatAction UPLOAD_VIDEO) w) filepath
                (caption_of title)
         else answer_document E (log_event (ChatAction UPLOAD_VIDEO) w) filepath
                (caption_of title)) = Some e ->
        In (Answer (SendingFailed e)) (trace (send_file E filepath title w).2)).
Proof.
  intros Hsz Hchat Hans Hvid Hdoc.
  unfold send_file, bind, stat_size, try_except.
  rewrite Hsz, call_run, Hchat.
  destruct (gt_int (human_mb sz) TELEGRAM_LIMIT_MB).
  { rewrite call_run, Hans. split; [done|]. by intros [=]. }
  destruct (le_int (human_mb sz) SEND_AS_VIDEO_THRESHOLD_MB); rewrite call_run.
  - destruct (answer_video E _ _ _) as [e|] eqn:Hup.
    + rewrite (Hvid _ _ _ _ Hup), call_run, Hans. split; [done|].
      intros _ e' [= <-]. cbn. apply in_or_app. right. by left.
    + split; [done|]. by intros _ e [=].
  - destruct (answer_document E _ _ _) as [e|] eqn:Hup.
    + rewrite (Hdoc _ _ _ _ Hup), call_run, Hans. split; [done|].
      intros _ e' [= <-]. cbn. apply in_or_app. right. by left.
    + split; [done|]. by intros _ e [=].
Qed.

Lemma send_file_contains_upload_errors_witness :
  let E := Faulty.env_no_upload (Foreign true "TelegramBadRequest") (10 * MB) in
  let w := Sample.world_with Sample.clip (10 * MB) in
  (send_file E Sample.clip "clip" w).1 = Ok tt
  /\ In (Answer (SendingFailed (Foreign true "TelegramBadRequest")))
       (trace (send_file E Sample.clip "clip" w).2).
Proof.
  intros E w.
  assert (forall w0 (f c : string) e,
            Faulty.refuse (Foreign true "TelegramBadRequest") w0 f c = Some e ->
            is_Exception e = true) as Hup.
  { intros w0 f c e [= <-]. reflexivity. }
  destruct (send_file_contains_upload_errors E w Sample.clip "clip" (10 * MB))
    as [Hok Hnotice].
  - vm_compute. reflexivity.
  - reflexivity.
  - reflexivity.
  - exact Hup.
  - exact Hup.
  - split; [exact Hok|]. apply Hnotice; vm_compute; reflexivity.
Defined.

(** X13.  A job extracts at most once and uploads at most once; an upload
    comes after the extraction, and no transcode follows it. *)
Theorem job_extracts_and_uploads_once E (message : Message) (w : World)
    (r : Res unit) (w' : World) (new : list event) :
  handle_url E message w = (r, w') ->
  trace w' = trace w ++ new ->
  (length (List.filter is_extraction new) <= 1)%nat
  /\ (length (List.filter is_upload new) <= 1)%nat
  /\ forall l1 e l2, new = l1 ++ e :: l2 -> is_upload e = true ->
       (exists url opts, In (ExtractInfo url opts) l1) /\ transcodes l2 = [].
Proof.
  intros Hrun Htr.
  destruct (handle_url_detail E message w r w' new Hrun Htr)
    as [->|[->|(td & pre & S & post & notice & -> & [HS Hst] & Hnotice)]].
  - split_and!; [cbn; lia..|]. intros l1 e l2 Heq He.
    destruct l1 as [|? [|? ?]]; by simplify_eq/=.
  - split_and!; [cbn; lia..|]. intros l1 e l2 Heq He.
    destruct l1 as [|? [|? [|? [|? ?]]]]; by simplify_eq/=.
  - assert (List.filter is_upload S = [] /\ List.filter is_extraction S = [])
      as (HSu & HSe).
    { destruct HS as [->|(c & r0 & Hl)]; [done|]. by eapply ladder_no_upload. }
    assert (List.filter is_upload notice = [] /\ List.filter is_extraction notice = []
            /\ transcodes notice = []) as (Hnu & Hne & Hnt).
    { destruct Hnotice as [->|[e ->]]; done. }
    destruct Hst as [(-> & -> & Hpre)|(-> & title & Ht & Hpost & Hup)].
    + split_and!.
      * rewrite !List.filter_app, !length_app, Hne. destruct Hpre as [->| ->]; cbn; lia.
      * rewrite !List.filter_app, !length_app, Hnu. destruct Hpre as [->| ->]; cbn; lia.
      * intros l1 e l2 Heq He. exfalso.
        assert (List.filter is_upload (l1 ++ e :: l2) = []) as Hnone.
        { rewrite <- Heq. rewrite !List.filter_app, Hnu. by destruct Hpre as [->| ->]. }
        rewrite List.filter_app in Hnone. cbn in Hnone. rewrite He in Hnone.
        by destruct (List.filter is_upload l1).
    + destruct (delivery_no_extraction _ _ Hpost) as [Hpe Hpt].
      split_and!.
      * rewrite !List.filter_app, !length_app, Hne, HSe, Hpe. cbn. lia.
      * rewrite !List.filter_app, !length_app, Hnu, HSu. cbn. lia.
      * intros l1 e l2 Heq He.
        match type of Heq with ?A ++ ?P ++ S ++ post ++ notice ++ ?Z = _ =>
          assert ((A ++ P ++ S) ++ post ++ (notice ++ Z) = l1 ++ e :: l2) as Heq'
            by (rewrite <- Heq; by rewrite <- !app_assoc)
        end.
        apply (filter_split is_upload) in Heq' as (p1 & p2 & -> & -> & ->); [|done|..].
        -- split.
           ++ eexists _, _. apply in_or_app. left. apply in_or_app. right.
              apply in_or_app. left. right. by left.
           ++ rewrite !transcodes_app, Hnt. cbn.
              rewrite transcodes_app in Hpt. rewrite app_nil_r.
              destruct (transcodes p1); [|done]. cbn in Hpt.
              destruct e; try done; exact Hpt.
        -- rewrite !List.filter_app, HSu. done.
        -- rewrite !List.filter_app, Hnu. done.
Qed.

Lemma job_extracts_and_uploads_once_witness :
  let run := handle_url (Sample.env (10 * MB) (Sample.engine 0 None))
               (mkMessage (Some "https://youtu.be/abc")) Sample.empty_world in
  (length (List.filter is_extraction (trace run.2)) <= 1)%nat
  /\ (length (List.filter is_upload (trace run.2)) <= 1)%nat
  /\ forall l1 e l2, trace run.2 = l1 ++ e :: l2 -> is_upload e = true ->
       (exists url opts, In (ExtractInfo url opts) l1) /\ transcodes l2 = [].
Proof.
  intros run.
  apply (job_extracts_and_uploads_once (Sample.env (10 * MB) (Sample.engine 0 None))
           (mkMessage (Some "https://youtu.be/abc")) Sample.empty_world run.1 run.2).
  - vm_compute. reflexivity.
  - vm_compute. reflexivity.
Defined.

(** X14.  No failure of the extraction, of the ladder or of the delivery
    leaves [handle_url]: an exception deriving from [Exception] that it
    raises was raised by its first reply, by the creation of the scratch
    directory, or by the status edit that reports a failure. *)
Theorem stage_exceptions_contained E (message : Message) (w : World)
    (e : exn) (w' : World) :
  handle_url E message w = (Raise e, w') ->
  is_Exception e = true ->
  (exists w0 t, answer E w0 t = Some e
                /\ (t = RejectLink \/ exists plat, t = Downloading plat))
  \/ (exists w0, mkdtemp E w0 = inl e)
  \/ (exists w0 e0, edit_text E w0 (DownloadFailed e0) = Some e
                    /\ is_Exception e0 = true).
Proof.
  unfold handle_url.
  set (url := Str.strip (Str.or_else (msg_text message) "")).
  destruct (is_supported_url url); cbn [negb].
  2:{ rewrite call_run. destruct (answer E w RejectLink) as [x|] eqn:Ha; [|done].
      intros [= -> _] _. left. eauto. }
  unfold with_permit, finally. unfold bind at 1. rewrite call_run.
  destruct (answer E _ _) as [x|] eqn:Ha.
  { intros [= -> _] _. left. eauto 10. }
  unfold with_tempdir.
  destruct (mkdtemp E _) as [x|[td d]] eqn:Hm.
  { intros [= -> _] _. right. left. eauto. }
  unfold finally, try_except.
  destruct (pipeline E url _ _) as [[[]|x] w3]; [done|].
  destruct (is_Exception x) eqn:Hx.
  - rewrite call_run. destruct (edit_text E w3 (DownloadFailed x)) as [y|] eqn:He; [|done].
    intros [= -> _] _. right. right. eauto.
  - intros [= -> _] He. congruence.
Qed.

Lemma stage_exceptions_contained_witness :
  let e := Foreign true "TelegramNetworkError" in
  let E := Faulty.env_no_answer e in
  (exists w0 t, answer E w0 t = Some e
                /\ (t = RejectLink \/ exists plat, t = Downloading plat))
  \/ (exists w0, mkdtemp E w0 = inl e)
  \/ (exists w0 e0, edit_text E w0 (DownloadFailed e0) = Some e
                    /\ is_Exception e0 = true).
Proof.
  intros e E.
  apply (stage_exceptions_contained E (mkMessage (Some "hello")) Sample.empty_world e
           (mkWorld ∅ [Answer RejectLink])).
  - vm_compute. reflexivity.
  - reflexivity.
Defined.

(** X15.  Every upload of a job is captioned with a non-empty title in bold:
    the title defaults to "video", so the caption "Video" of [send_file] is
    never used by [handle_url]. *)
Theorem job_captions_carry_title E (message : Message) (w : World)
    (r : Res unit) (w' : World) (new : list event) (file caption : string) :
  handle_url E message w = (r, w') ->
  trace w' = trace w ++ new ->
  In (AnswerVideo file caption) new \/ In (AnswerDocument file caption) new ->
  exists title, title <> "" /\ caption = "<b>" +:+ title +:+ "</b>".
Proof.
  intros Hrun Htr Hin.
  assert (exists e, In e new /\ is_upload e = true
                    /\ (e = AnswerVideo file caption \/ e = AnswerDocument file caption))
    as (e & He & Hup & Hcap).
  { destruct Hin as [Hin|Hin]; eexists; (split; [exact Hin|]); auto. }
  clear Hin.
  destruct (handle_url_detail E message w r w' new Hrun Htr)
    as [->|[->|(td & pre & S & post & notice & -> & [HS Hst] & Hnotice)]].
  - cbn in He. destruct He as [<-|[]]. done.
  - cbn in He. repeat destruct He as [<-|He]; done.
  - assert (In e post) as Hpost.
    { cbn [app] in He. repeat (destruct He as [<-|He]; [done|]).
      apply in_app_or in He as [He|He].
      { destruct Hst as [(_ & _ & [->| ->])|(-> & _)];
          cbn in He; repeat destruct He as [<-|He]; done. }
      apply in_app_or in He as [He|He].
      { destruct HS as [->|(c & r0 & Hl)]; [done|].
        apply ladder_events in Hl. rewrite Forall_forall in Hl.
        apply list_elem_of_In, Hl in He. by destruct e. }
      apply in_app_or in He as [He|He]; [done|].
      apply in_app_or in He as [He|He].
      - destruct Hnotice as [->|[x ->]]; cbn in He;
          repeat destruct He as [<-|He]; done.
      - cbn in He. repeat destruct He as [<-|He]; done. }
    destruct Hst as [(_ & -> & _)|(_ & title & Ht & Hdel & _)]; [done|].
    rewrite Forall_forall in Hdel. apply list_elem_of_In, Hdel in Hpost.
    exists title. split; [done|].
    assert (caption_of title = "<b>" +:+ title +:+ "</b>") as Hc.
    { unfold caption_of. by destruct title. }
    destruct Hcap as [-> | ->]; cbn in Hpost; congruence.
Qed.

Lemma job_captions_carry_title_witness :
  exists title, title <> "" /\ "<b>clip</b>" = "<b>" +:+ title +:+ "</b>".
Proof.
  set (run := handle_url (Sample.env (10 * MB) (Sample.engine 0 None))
                (mkMessage (Some "https://youtu.be/abc")) Sample.empty_world).
  apply (job_captions_carry_title (Sample.env (10 * MB) (Sample.engine 0 None))
           (mkMessage (Some "https://youtu.be/abc")) Sample.empty_world
           run.1 run.2 (trace run.2) Sample.clip "<b>clip</b>").
  - vm_compute. reflexivity.
  - vm_compute. reflexivity.
  - left. vm_compute. do 7 right. left. reflexivity.
Defined.

(** X16.  When the transport goes through, the scratch directory [td] is made
    and the extraction raises [e], the run of the job is determined.  Its
    events are: permit, first reply, scratch directory, recording action,
    extraction, then, when [e] derives from [Exception], the failure notice
    that carries [e], then cleanup and release.  It returns normally when [e]
    derives from [Exception] and raises [e] otherwise; the disk is the one the
    extraction left, without the scratch directory and what lies below it. *)
Theorem failed_extraction_run E (message : Message) (w : World)
    (url td : string) (d d' : gmap string Z) (e : exn) :
  url = Str.strip (Str.or_else (msg_text message) "") ->
  is_supported_url url = true ->
  healthy_transport E ->
  mkdtemp E (at_mkdtemp url w) = inr (td, d) ->
  extract_info E (at_extraction url td d w) url (job_opts E url td) = (inl e, d') ->
  handle_url E message w
  = (if is_Exception e then Ok tt else Raise e,
     mkWorld (rmtree td d')
       (trace w
        ++ [Acquire; Answer (Downloading (platform_name url)); MkDtemp td;
            ChatAction RECORD_VIDEO; ExtractInfo url (job_opts E url td)]
        ++ (if is_Exception e then [EditText (DownloadFailed e)] else [])
        ++ [Cleanup td; Release]))
  /\ forall p, inside td p = true -> disk (handle_url E message w).2 !! p = None.
Proof.
  intros -> Hsup (Hans & Hedit & Hchat) Hm Hx.
  assert (handle_url E message w
          = (if is_Exception e then Ok tt else Raise e,
             mkWorld (rmtree td d')
               (trace w
                ++ [Acquire;
                    Answer (Downloading
                      (platform_name (Str.strip (Str.or_else (msg_text message) ""))));
                    MkDtemp td; ChatAction RECORD_VIDEO;
                    ExtractInfo (Str.strip (Str.or_else (msg_text message) ""))
                      (job_opts E (Str.strip (Str.or_else (msg_text message) "")) td)]
                ++ (if is_Exception e then [EditText (DownloadFailed e)] else [])
                ++ [Cleanup td; Release]))) as Hrun.
  { revert Hm Hx. unfold handle_url, at_extraction, at_mkdtemp, job_opts.
    rewrite Hsup. cbn [negb].
    set (url := Str.strip _) in *. intros Hm Hx.
    unfold with_permit, finally. unfold bind at 1. rewrite call_run, Hans.
    unfold with_tempdir. rewrite Hm.
    unfold finally, try_except, pipeline. unfold bind at 1. rewrite call_run, Hchat.
    unfold bind at 1, _extract. rewrite Hx.
    destruct (is_Exception e).
    - rewrite call_run, Hedit. unfold log_event. cbn [trace disk].
      by rewrite <- !app_assoc.
    - unfold log_event. cbn [trace disk]. by rewrite <- !app_assoc. }
  split; [exact Hrun|]. rewrite Hrun. intros p Hp. cbn [snd disk].
  by apply rmtree_inside.
Qed.

Lemma failed_extraction_run_witness :
  let e := Foreign true "DownloadError" in
  let E := Faulty.env_no_download e in
  handle_url E (mkMessage (Some "https://youtu.be/abc")) Sample.empty_world
  = (Ok tt,
     mkWorld ∅
       [Acquire; Answer (Downloading "YouTube"); MkDtemp "/tmp/job";
        ChatAction RECORD_VIDEO;
        ExtractInfo "https://youtu.be/abc" (job_opts E "https://youtu.be/abc" "/tmp/job");
        EditText (DownloadFailed e); Cleanup "/tmp/job"; Release]).
Proof.
  intros e E.
  destruct (failed_extraction_run E (mkMessage (Some "https://youtu.be/abc"))
              Sample.empty_world "https://youtu.be/abc" "/tmp/job"
              {[ "/tmp/job" := 4096 ]} {[ "/tmp/job" := 4096 ]} e) as [Hrun _].
  - vm_compute. reflexivity.
  - vm_compute. reflexivity.
  - repeat split; reflexivity.
  - reflexivity.
  - reflexivity.
  - rewrite Hrun. reflexivity.
Defined.

(** X17.  When the transport goes through and the extraction reports, as the
    file path of its first requested download, a file [fp] of at most 1900
    MB, the run of the job is determined: it returns normally, invokes no
    transcode and uploads [fp] once, between the status edit and the cleanup,
    as a video when [fp] measures 50 MB or less and as a document otherwise,
    captioned with the title in bold, "video" standing for a missing or empty
    title. *)
Theorem small_download_run E (message : Message) (w : World)
    (url td : string) (d d' : gmap string Z) (i : info_dict) (fp : string)
    (rest : list (option string)) (sz : Z) :
  url = Str.strip (Str.or_else (msg_text message) "") ->
  is_supported_url url = true ->
  healthy_transport E ->
  (forall w0 f c, answer_video E w0 f c = None) ->
  (forall w0 f c, answer_document E w0 f c = None) ->
  mkdtemp E (at_mkdtemp url w) = inr (td, d) ->
  extract_info E (at_extraction url td d w) url (job_opts E url td)
  = (inr (InfoDict i), d') ->
  requested_downloads i = Some fp :: rest ->
  Str.truthy fp = true ->
  d' !! fp = Some sz ->
  sz <= SAFE_LIMIT_MB * MB ->
  handle_url E message w
  = (Ok tt,
     mkWorld (rmtree td d')
       (trace w
        ++ [Acquire; Answer (Downloading (platform_name url)); MkDtemp td;
            ChatAction RECORD_VIDEO; ExtractInfo url (job_opts E url td);
            EditText Uploading; ChatAction UPLOAD_VIDEO;
            (if le_int (human_mb sz) SEND_AS_VIDEO_THRESHOLD_MB
             then AnswerVideo fp
                    ("<b>" +:+ Str.or_else (info_title i) "video" +:+ "</b>")
             else AnswerDocument fp
                    ("<b>" +:+ Str.or_else (info_title i) "video" +:+ "</b>"));
            Cleanup td; Release])).
Proof.
  intros -> Hsup (Hans & Hedit & Hchat) Hvid Hdoc Hm Hx Hrd Hfp Hsz Hle.
  revert Hm Hx. unfold handle_url, at_extraction, at_mkdtemp, job_opts.
  rewrite Hsup. cbn [negb].
  set (url := Str.strip _) in *. intros Hm Hx.
  unfold with_permit, finally. unfold bind at 1. rewrite call_run, Hans.
  unfold with_tempdir. rewrite Hm.
  unfold finally, try_except, pipeline. unfold bind at 1. rewrite call_run, Hchat.
  unfold bind at 1, _extract. rewrite Hx, Hrd, Hfp.
  unfold bind at 1, path_exists, exists_on. cbn [disk log_event]. rewrite Hsz.
  cbn [negb]. unfold bind at 1, stat_size at 1. cbn [disk log_event]. rewrite Hsz.
  assert (le_int (human_mb sz) SAFE_LIMIT_MB = true) as Hsafe.
  { apply le_int_human_mb. unfold SAFE_LIMIT_MB, MB in *. lia. }
  assert (gt_int (human_mb sz) SAFE_LIMIT_MB = false) as Hgt.
  { unfold gt_int. fold (le_int (human_mb sz) SAFE_LIMIT_MB). by rewrite Hsafe. }
  assert (gt_int (human_mb sz) TELEGRAM_LIMIT_MB = false) as Hgt2.
  { apply not_true_iff_false. rewrite gt_int_human_mb.
    unfold SAFE_LIMIT_MB, TELEGRAM_LIMIT_MB, MB in *. lia. }
  assert (caption_of (Str.or_else (info_title i) "video")
          = "<b>" +:+ Str.or_else (info_title i) "video" +:+ "</b>") as Hcap.
  { unfold caption_of, Str.or_else. by destruct (info_title i) as [[|? ?]|]. }
  unfold bind at 1. rewrite Hgt. unfold ret at 1.
  unfold bind at 1. rewrite call_run, Hedit.
  unfold send_file, bind, stat_size, try_except. cbn [disk log_event]. rewrite Hsz.
  rewrite call_run, Hchat, Hgt2, Hcap.
  destruct (le_int (human_mb sz) SEND_AS_VIDEO_THRESHOLD_MB);
    rewrite call_run, ?Hvid, ?Hdoc; unfold log_event; cbn [trace disk];
    by rewrite <- !app_assoc.
Qed.

Lemma small_download_run_witness :
  let E := Sample.env (10 * MB) (Sample.engine 0 None) in
  handle_url E (mkMessage (Some "https://youtu.be/abc")) Sample.empty_world
  = (Ok tt,
     mkWorld ∅
       [Acquire; Answer (Downloading "YouTube"); MkDtemp "/tmp/job";
        ChatAction RECORD_VIDEO;
        ExtractInfo "https://youtu.be/abc" (job_opts E "https://youtu.be/abc" "/tmp/job");
        EditText Uploading; ChatAction UPLOAD_VIDEO;
        AnswerVideo Sample.clip "<b>clip</b>";
        Cleanup "/tmp/job"; Release]).
Proof.
  intros E.
  rewrite (small_download_run E (mkMessage (Some "https://youtu.be/abc"))
             Sample.empty_world "https://youtu.be/abc" "/tmp/job"
             {[ "/tmp/job" := 4096 ]}
             (<[Sample.clip := 10 * MB]> {[ "/tmp/job" := 4096 ]})
             (mkInfo [Some Sample.clip] Sample.clip (Some "clip"))
             Sample.clip [] (10 * MB)).
  - vm_compute. reflexivity.
  - vm_compute. reflexivity.
  - vm_compute. reflexivity.
  - repeat split; reflexivity.
  - reflexivity.
  - reflexivity.
  - reflexivity.
  - reflexivity.
  - reflexivity.
  - reflexivity.
  - apply lookup_insert_eq.
  - vm_compute. discriminate.
Defined.

(** ** The pool, once more *)

(** X18.  No permit is lost: whatever the schedule, once every job has
    performed all its events the counter of the pool is back at two. *)
Theorem no_permit_leak (runs : list (list event)) (schedule : list nat) :
  Forall bracketed runs ->
  Forall (fun j => Gate.todo j = []) (Gate.jobs (Gate.run schedule (Gate.init runs))) ->
  Gate.value (Gate.run schedule (Gate.init runs)) = 2%nat.
Proof.
  intros Hruns Hdone.
  destruct (run_ok schedule _ (init_ok runs Hruns)) as [Hv Hj].
  set (s := Gate.run schedule (Gate.init runs)) in *.
  assert (Gate.running s = 0%nat) as Hz.
  { unfold Gate.running. clear Hv.
    induction (Gate.jobs s) as [|j l IH]; [done|].
    apply Forall_cons in Hdone as [Hd Hdone]. apply Forall_cons in Hj as [Hok Hj].
    rewrite running_cons, (IH Hdone Hj). unfold Gate.held, job_ok in *.
    destruct (Gate.holding j); [|done].
    destruct Hok as (mid & Hmid & _). rewrite Hd in Hmid. by destruct mid. }
  unfold Gate.CONCURRENCY in Hv. lia.
Qed.

Lemma no_permit_leak_witness :
  let job := [Acquire; Answer (Downloading "YouTube"); Release] in
  Gate.value (Gate.run [0; 1; 0; 1; 0; 1; 2; 2; 2]%nat (Gate.init [job; job; job])) = 2%nat.
Proof.
  intros job.
  assert (bracketed job) as Hjob.
  { right. exists [Answer (Downloading "YouTube")].
    split; [reflexivity|]. apply Forall_cons_2; [|apply Forall_nil_2].
    split; discriminate. }
  apply (no_permit_leak [job; job; job]).
  - repeat (apply Forall_cons_2; [exact Hjob|]). apply Forall_nil_2.
  - vm_compute. repeat (apply Forall_cons_2; [reflexivity|]). apply Forall_nil_2.
Defined.

Section MoreGateFacts.
Import Gate.

Lemma fire_moves i s e rest h :
  jobs s !! i = Some (mkJob (e :: rest) h) ->
  e <> Acquire \/ value s <> 0%nat ->
  fire i s <> s.
Proof.
  intros Hi Hen Heq.
  assert (exists h', jobs (fire i s) !! i = Some (mkJob rest h')) as [h' Hafter].
  { unfold fire. rewrite Hi.
    pose proof (lookup_lt_Some _ _ _ Hi) as Hlt.
    destruct e; cbn [jobs];
      try (eexists; by apply list_lookup_insert_eq).
    destruct (value s); [by destruct Hen|].
    cbn [jobs]. eexists. by apply list_lookup_insert_eq. }
  rewrite Heq, Hi in Hafter. injection Hafter as Hlen _.
  apply (f_equal length) in Hlen. cbn in Hlen. lia.
Qed.

Lemma running_holder l :
  (0 < length (filter (fun j => holding j = true) l))%nat ->
  exists k j, l !! k = Some j /\ holding j = true.
Proof.
  induction l as [|j l IH]; [cbn; lia|].
  rewrite running_cons. unfold held. destruct (holding j) eqn:Hj.
  - intros _. by exists 0%nat, j.
  - intros H. destruct IH as (k & j' & Hk & Hj'); [lia|]. by exists (S k), j'.
Qed.

End MoreGateFacts.

(** X19.  The pool cannot block: whatever the schedule, as long as some job
    has events left, some job can perform its next event. *)
Theorem pool_progress (runs : list (list event)) (schedule : list nat) :
  Forall bracketed runs ->
  let s := Gate.run schedule (Gate.init runs) in
  (exists i j, Gate.jobs s !! i = Some j /\ Gate.todo j <> []) ->
  exists k, Gate.fire k s <> s.
Proof.
  intros Hruns s (i & [l h] & Hi & Hne). cbn [Gate.todo] in Hne.
  destruct (run_ok schedule _ (init_ok runs Hruns)) as [Hv Hj]. fold s in Hv, Hj.
  destruct l as [|e rest]; [done|].
  assert (e <> Acquire \/ Gate.value s <> 0%nat -> exists k, Gate.fire k s <> s)
    as Hmove.
  { intros Hen. exists i. by apply (fire_moves i s e rest h Hi). }
  destruct e; try (apply Hmove; by left).
  destruct (Gate.value s) as [|v] eqn:Hz; [|apply Hmove; by right].
  clear Hmove. unfold Gate.CONCURRENCY, Gate.running in Hv.
  destruct (running_holder (Gate.jobs s)) as (k & [lk hk] & Hk & Hh); [lia|].
  cbn [Gate.holding] in Hh. subst hk.
  pose proof (Forall_lookup_1 _ _ _ _ Hj Hk) as Hok.
  unfold job_ok in Hok. cbn [Gate.holding Gate.todo] in Hok.
  destruct Hok as (mid & -> & Hmid). exists k.
  destruct mid as [|x mid].
  - apply (fire_moves k s Release [] true Hk). by left.
  - apply (fire_moves k s x (mid ++ [Release]) true Hk). left.
    intros ->. by apply permit_free_acquire in Hmid.
Qed.

Lemma pool_progress_witness :
  let job := [Acquire; Answer (Downloading "YouTube"); Release] in
  let s := Gate.run [0; 1]%nat (Gate.init [job; job; job]) in
  exists k, Gate.fire k s <> s.
Proof.
  intros job s.
  assert (bracketed job) as Hjob.
  { right. exists [Answer (Downloading "YouTube")].
    split; [reflexivity|]. apply Forall_cons_2; [|apply Forall_nil_2].
    split; discriminate. }
  apply (pool_progress [job; job; job] [0; 1]%nat).
  - repeat (apply Forall_cons_2; [exact Hjob|]). apply Forall_nil_2.
  - exists 2%nat, (Gate.mkJob job false). split; [reflexivity|discriminate].
Defined.
